(** * A ledger engine over a relational store: deposit, withdraw, transfer

    Shallow embedding of [src/banking_system_cpp_my_sql.cpp] (class [Bank]
    of [src/bank.cpp], the structs of [include/bank.h] and the schema of
    [db.sql]).

    - Money is counted in hundredths.  A balance and the amount of a
      record are [DECIMAL(15,2)] columns: whole numbers of hundredths, [Z].
      An amount handed to the engine is a C++ [double] and need not be
      whole: it is taken at its exact value, a rational number of
      hundredths ([Q]; 20.00 is [cents 2000], 0.001 is [1 # 10]), sums and
      comparisons on it are exact (the error of floating-point arithmetic
      is left out, as are NaN and the infinities), and the store rounds
      what it writes to the nearest hundredth, a half going away from zero
      ([round_cents]).
    - The three tables are finite maps from the primary key to the row
      (customers, accounts) and the list of rows in insertion order
      (transactions).
    - A [sql::Connection] is the committed tables, the tables as this
      connection sees them, the autocommit flag and the [AUTO_INCREMENT]
      counters.
    - [sql::SQLException] is the [Throw] result of a small state and
      exception monad [Gw]; [try { } catch (sql::SQLException&) { }] is
      [try_catch].
    - Storage faults are injected by a [FaultPlan]: the request to the
      server that is to fail, counted from the start of the public call. *)

From Stdlib Require Import ZArith QArith Lia DecimalString.
From stdpp Require Import gmap strings list fin_maps sorting.

Local Open Scope string_scope.
Local Open Scope list_scope.
Local Open Scope Z_scope.

(** * The model *)

(** ** Money *)

(** A whole number of hundredths as an amount. *)
Definition cents (k : Z) : Q := inject_Z k.

(** [x < y] on amounts, as the test the code makes. *)
Definition Qlt_bool (x y : Q) : bool := negb (Qle_bool y x).

(** What a [DECIMAL(15,2)] column keeps of a value: the nearest whole
    number of hundredths, a half going away from zero. *)
Definition round_cents (q : Q) : Z :=
  let n := Qnum q in
  let d := Z.pos (Qden q) in
  if 0 <=? n then (2 * n + d) / (2 * d) else - ((2 * (- n) + d) / (2 * d)).

(** The guard [amount <= 0] of the three money operations lets the amount
    through. *)
Definition is_positive (amount : Q) : Prop := Qle_bool amount 0 = false.

(** The test [a.balance < amount] lets a balance of [b] hundredths
    through. *)
Definition covers (b : Z) (amount : Q) : Prop := Qlt_bool (cents b) amount = false.

(** ** Rows and structs *)

(** [type ENUM('DEPOSIT','WITHDRAW','TRANSFER')] of table [transactions]. *)
Inductive TxType := DEPOSIT | WITHDRAW | TRANSFER.

#[global] Instance TxType_eq_dec : EqDecision TxType.
Proof. solve_decision. Defined.

(** A row of [customers], without its key [customer_id]. *)
Record CustomerRow := mkCustomerRow {
  cr_name : string;
  cr_email : string;
  cr_phone : string
}.

(** A row of [accounts], without its key [account_id]. *)
Record AccountRow := mkAccountRow {
  ar_customer_id : Z;
  ar_account_type : string;
  ar_balance : Z
}.

(** [struct TransactionRecord], a row of [transactions]; [created_at] is
    wall-clock time and is left out. *)
Record TransactionRecord := mkTransactionRecord {
  tr_id : Z;
  tr_account_id : Z;
  tr_type : TxType;
  tr_amount : Z;
  tr_details : string
}.

(** [struct Account], what [getAccount] hands back; its [balance] is the
    column read back, a whole number of hundredths. *)
Record Account := mkAccount {
  id : Z;
  customer_id : Z;
  type : string;
  balance : Z
}.

Record Tables := mkTables {
  customers : gmap Z CustomerRow;
  accounts : gmap Z AccountRow;
  transactions : list TransactionRecord
}.

(** ** The connection *)

Record Conn := mkConn {
  committed : Tables;
  working : Tables;
  autocommit : bool;
  next_customer_id : Z;
  next_account_id : Z;
  next_transaction_id : Z;
  last_insert_id : Z
}.

Definition set_working (t : Tables) (c : Conn) : Conn :=
  mkConn (if autocommit c then t else committed c) t (autocommit c)
         (next_customer_id c) (next_account_id c) (next_transaction_id c)
         (last_insert_id c).

(** ** Statements: the SQL text the engine prepares *)

Inductive Stmt :=
| InsertCustomer (name email phone : string)
| InsertAccount (customer_id : Z) (account_type : string)
| UpdateBalanceAdd (amount : Q) (account_id : Z)
| UpdateBalanceSub (amount : Q) (account_id : Z)
| InsertTransaction (account_id : Z) (ty : TxType) (amount : Q) (details : string).

(** [SET balance = balance + ?]: the sum, rounded into the column. *)
Definition add_balance (delta : Q) (r : AccountRow) : AccountRow :=
  mkAccountRow (ar_customer_id r) (ar_account_type r)
               (round_cents (cents (ar_balance r) + delta)).

(** The effect of a statement on the tables and counters, [None] when the
    server rejects it.  [UPDATE ... WHERE account_id = ?] touches the
    matching row and is no error when there is none.  The two foreign keys
    ([accounts.customer_id], [transactions.account_id]) and the primary
    keys are enforced by the engine whatever the SQL mode is; range and
    length checks depend on the mode and belong to the fault plan.  The
    amount of a record is rounded into its column. *)
Definition apply_stmt (s : Stmt) (c : Conn) : option Conn :=
  let t := working c in
  match s with
  | InsertCustomer name email phone =>
      let k := next_customer_id c in
      match customers t !! k with
      | Some _ => None
      | None =>
          let t' := mkTables (<[k := mkCustomerRow name email phone]> (customers t))
                             (accounts t) (transactions t) in
          let c' := set_working t' c in
          Some (mkConn (committed c') (working c') (autocommit c')
                       (k + 1) (next_account_id c) (next_transaction_id c) k)
      end
  | InsertAccount cid ty =>
      let k := next_account_id c in
      match customers t !! cid, accounts t !! k with
      | Some _, None =>
          let t' := mkTables (customers t)
                             (<[k := mkAccountRow cid ty 0]> (accounts t))
                             (transactions t) in
          let c' := set_working t' c in
          Some (mkConn (committed c') (working c') (autocommit c')
                       (next_customer_id c) (k + 1) (next_transaction_id c) k)
      | _, _ => None
      end
  | UpdateBalanceAdd amount aid =>
      Some (set_working (mkTables (customers t)
                                  (alter (add_balance amount) aid (accounts t))
                                  (transactions t)) c)
  | UpdateBalanceSub amount aid =>
      Some (set_working (mkTables (customers t)
                                  (alter (add_balance (- amount)) aid (accounts t))
                                  (transactions t)) c)
  | InsertTransaction aid ty amount details =>
      let k := next_transaction_id c in
      match accounts t !! aid with
      | None => None
      | Some _ =>
          let t' := mkTables (customers t) (accounts t)
                             (transactions t ++
                                [mkTransactionRecord k aid ty (round_cents amount) details]) in
          let c' := set_working t' c in
          Some (mkConn (committed c') (working c') (autocommit c')
                       (next_customer_id c) (next_account_id c) (k + 1) k)
      end
  end.

(** ** Faults, results and the gateway monad *)

(** [Some k]: the request number [k] from now fails; [None]: none does. *)
Definition FaultPlan := option nat.

Definition no_fault : FaultPlan := None.
Definition fault_at (k : nat) : FaultPlan := Some k.

Inductive Res (A : Type) :=
| Ok (a : A)
| Throw.
Arguments Ok {A} a.
Arguments Throw {A}.

Definition Gw (A : Type) : Type := Conn -> FaultPlan -> Res A * Conn * FaultPlan.

Definition ret {A} (a : A) : Gw A := fun c p => (Ok a, c, p).

Definition bind {A B} (m : Gw A) (k : A -> Gw B) : Gw B :=
  fun c p =>
    match m c p with
    | (Ok a, c', p') => k a c' p'
    | (Throw, c', p') => (Throw, c', p')
    end.

Definition try_catch {A} (body handler : Gw A) : Gw A :=
  fun c p =>
    match body c p with
    | (Ok a, c', p') => (Ok a, c', p')
    | (Throw, c', p') => handler c' p'
    end.

Declare Scope gw_scope.
Delimit Scope gw_scope with gw.
Notation "x <- m ;; k" := (bind m (fun x => k))
  (at level 100, m at next level, right associativity) : gw_scope.
Notation "m ;; k" := (bind m (fun _ => k))
  (at level 100, right associativity) : gw_scope.
Local Open Scope gw_scope.

(** One request to the server: the plan decides first whether it fails;
    a failed request has no effect. *)
Definition request {A} (f : Conn -> Res A * Conn) : Gw A :=
  fun c p =>
    match p with
    | Some O => (Throw, c, None)
    | Some (S k) => let '(r, c') := f c in (r, c', Some k)
    | None => let '(r, c') := f c in (r, c', None)
    end.

(** [conn->setAutoCommit(b)]: switching autocommit on commits what is
    pending. *)
Definition setAutoCommit (b : bool) : Gw unit :=
  request (fun c =>
    (Ok tt,
     mkConn (if b then working c else committed c) (working c) b
            (next_customer_id c) (next_account_id c) (next_transaction_id c)
            (last_insert_id c))).

(** [ps->execute()] of a prepared statement with its parameters bound. *)
Definition execute (s : Stmt) : Gw unit :=
  request (fun c =>
    match apply_stmt s c with
    | Some c' => (Ok tt, c')
    | None => (Throw, c)
    end).

Definition commit : Gw unit :=
  request (fun c =>
    (Ok tt,
     mkConn (working c) (working c) (autocommit c)
            (next_customer_id c) (next_account_id c) (next_transaction_id c)
            (last_insert_id c))).

Definition rollback : Gw unit :=
  request (fun c =>
    (Ok tt,
     mkConn (committed c) (committed c) (autocommit c)
            (next_customer_id c) (next_account_id c) (next_transaction_id c)
            (last_insert_id c))).

(** [SELECT LAST_INSERT_ID() as id]. *)
Definition query_last_insert_id : Gw Z :=
  request (fun c => (Ok (last_insert_id c), c)).

(** [SELECT ... FROM accounts WHERE account_id = ?]: the row, if any. *)
Definition query_account (account_id : Z) : Gw (option AccountRow) :=
  request (fun c => (Ok (accounts (working c) !! account_id), c)).

(** ** Class [Bank] *)

(** [std::ostringstream << int]: the decimal numeral of an integer. *)
Definition show_int (z : Z) : string := NilZero.string_of_int (Z.to_int z).

(** [Bank::createCustomer]. *)
Definition createCustomer (name email phone : string) : Gw Z :=
  try_catch
    (execute (InsertCustomer name email phone) ;;
     i <- query_last_insert_id ;;
     ret i)
    (ret (-1)).

(** [Bank::createAccount]. *)
Definition createAccount (customer_id : Z) (type : string) : Gw Z :=
  try_catch
    (execute (InsertAccount customer_id type) ;;
     i <- query_last_insert_id ;;
     ret i)
    (ret (-1)).

(** [Bank::getAccount]: [a.id = -1] unless a row is found; the other
    fields of a struct that was not filled are never read by the engine. *)
Definition getAccount (account_id : Z) : Gw Account :=
  let a := mkAccount (-1) 0 EmptyString 0 in
  try_catch
    (rs <- query_account account_id ;;
     match rs with
     | Some row =>
         ret (mkAccount account_id (ar_customer_id row)
                        (ar_account_type row) (ar_balance row))
     | None => ret a
     end)
    (ret a).

(** The handler shared by the three money operations:
    [try { rollback(); setAutoCommit(true); } catch(...){}  return false;] *)
Definition rollback_and_fail : Gw bool :=
  try_catch (rollback ;; setAutoCommit true) (ret tt) ;;
  ret false.

(** The [try] block of [Bank::deposit]. *)
Definition deposit_try (account_id : Z) (amount : Q) : Gw bool :=
  setAutoCommit false ;;
  execute (UpdateBalanceAdd amount account_id) ;;
  execute (InsertTransaction account_id DEPOSIT amount "Deposit via app") ;;
  commit ;;
  setAutoCommit true ;;
  ret true.

(** [Bank::deposit]. *)
Definition deposit (account_id : Z) (amount : Q) : Gw bool :=
  if Qle_bool amount 0 then ret false else
  try_catch (deposit_try account_id amount) rollback_and_fail.

(** The [try] block of [Bank::withdraw]. *)
Definition withdraw_try (account_id : Z) (amount : Q) : Gw bool :=
  a <- getAccount account_id ;;
  if id a <? 0 then ret false else
  if Qlt_bool (cents (balance a)) amount then ret false else
  setAutoCommit false ;;
  execute (UpdateBalanceSub amount account_id) ;;
  execute (InsertTransaction account_id WITHDRAW amount "Withdrawal via app") ;;
  commit ;;
  setAutoCommit true ;;
  ret true.

(** [Bank::withdraw]. *)
Definition withdraw (account_id : Z) (amount : Q) : Gw bool :=
  if Qle_bool amount 0 then ret false else
  try_catch (withdraw_try account_id amount) rollback_and_fail.

(** The [try] block of [Bank::transfer]. *)
Definition transfer_try (from_account_id to_account_id : Z) (amount : Q) : Gw bool :=
  a_from <- getAccount from_account_id ;;
  a_to <- getAccount to_account_id ;;
  if (id a_from <? 0) || (id a_to <? 0) then ret false else
  if Qlt_bool (cents (balance a_from)) amount then ret false else
  setAutoCommit false ;;
  execute (UpdateBalanceSub amount from_account_id) ;;
  execute (UpdateBalanceAdd amount to_account_id) ;;
  execute (InsertTransaction from_account_id TRANSFER amount
             (String.append "Transfer to account " (show_int to_account_id))) ;;
  execute (InsertTransaction to_account_id DEPOSIT amount
             (String.append "Transfer from account " (show_int from_account_id))) ;;
  commit ;;
  setAutoCommit true ;;
  ret true.

(** [Bank::transfer]. *)
Definition transfer (from_account_id to_account_id : Z) (amount : Q) : Gw bool :=
  if Qle_bool amount 0 then ret false else
  try_catch (transfer_try from_account_id to_account_id amount) rollback_and_fail.

(** ** Calls, connections and balances *)

(** A public call: the operation run on a connection under a fault plan. *)
Definition call {A} (m : Gw A) (p : FaultPlan) (c : Conn) : Res A * Conn :=
  let '(r, c', _) := m c p in (r, c').

(** A freshly provisioned database ([db.sql]) and a connection to it. *)
Definition empty_tables : Tables := mkTables ∅ ∅ [].

Definition connect (t : Tables) (nc na nt : Z) : Conn :=
  mkConn t t true nc na nt 0.

Definition fresh_conn : Conn := connect empty_tables 1 1 1.

(** A connection between two public calls: autocommit is on and nothing
    is pending. *)
Definition idle (c : Conn) : Prop :=
  autocommit c = true /\ working c = committed c.

(** [AUTO_INCREMENT] keys start at 1. *)
Definition positive_ids (t : Tables) : Prop :=
  map_Forall (fun k (_ : AccountRow) => 0 < k) (accounts t).

Definition balance_of (t : Tables) (account_id : Z) : option Z :=
  ar_balance <$> accounts t !! account_id.

#[global] Instance positive_ids_dec t : Decision (positive_ids t).
Proof. unfold positive_ids. apply _. Defined.

(** ** The committed effect of each call *)

(** What a committed call leaves in the tables [t] it started from, [n]
    being the next key of [transactions]. *)
Definition deposit_post (t : Tables) (n account_id : Z) (amount : Q) : Tables :=
  mkTables (customers t)
           (alter (add_balance amount) account_id (accounts t))
           (transactions t ++
              [mkTransactionRecord n account_id DEPOSIT (round_cents amount)
                 "Deposit via app"]).

Definition withdraw_post (t : Tables) (n account_id : Z) (amount : Q) : Tables :=
  mkTables (customers t)
           (alter (add_balance (- amount)) account_id (accounts t))
           (transactions t ++
              [mkTransactionRecord n account_id WITHDRAW (round_cents amount)
                 "Withdrawal via app"]).

Definition transfer_post (t : Tables) (n from_account_id to_account_id : Z)
    (amount : Q) : Tables :=
  mkTables (customers t)
           (alter (add_balance amount) to_account_id
              (alter (add_balance (- amount)) from_account_id (accounts t)))
           (transactions t ++
              [mkTransactionRecord n from_account_id TRANSFER (round_cents amount)
                 (String.append "Transfer to account " (show_int to_account_id));
               mkTransactionRecord (n + 1) to_account_id DEPOSIT (round_cents amount)
                 (String.append "Transfer from account " (show_int from_account_id))]).

(** Where a call may leave the connection: each of the committed and the
    working tables is one it started with, or the committed effect. *)
Definition lands (c c' : Conn) (post : Tables) (ok : Prop) : Prop :=
  (committed c' = committed c \/ (ok /\ committed c' = post)) /\
  (working c' = committed c \/ working c' = working c \/ (ok /\ working c' = post)).

(** ** The ledger invariant *)

(** Credits count positive, debits negative. *)
Definition signed_amount (r : TransactionRecord) : Z :=
  match tr_type r with
  | DEPOSIT => tr_amount r
  | WITHDRAW | TRANSFER => - tr_amount r
  end.

(** The sum of the signed amounts of the records that reference an
    account. *)
Definition signed_sum (account_id : Z) (txs : list TransactionRecord) : Z :=
  foldr (fun r acc =>
           if tr_account_id r =? account_id then signed_amount r + acc else acc)
        0 txs.

(** Every account's balance is not negative and is the sum of its
    records; a key without an account has no net record. *)
Definition ledger_inv (t : Tables) : Prop :=
  forall k,
    match accounts t !! k with
    | Some row => 0 <= ar_balance row /\ ar_balance row = signed_sum k (transactions t)
    | None => signed_sum k (transactions t) = 0
    end.

Definition conn_inv (c : Conn) : Prop :=
  ledger_inv (committed c) /\ ledger_inv (working c).

(** The rows a successful [INSERT INTO customers] or [INSERT INTO accounts]
    adds. *)
Definition customer_post (t : Tables) (n : Z) (name email phone : string) : Tables :=
  mkTables (<[n := mkCustomerRow name email phone]> (customers t))
           (accounts t) (transactions t).

Definition account_post (t : Tables) (n customer_id : Z) (type : string) : Tables :=
  mkTables (customers t)
           (<[n := mkAccountRow customer_id type 0]> (accounts t))
           (transactions t).

(** ** Sessions *)

(** The operations of the console menu that change the store. *)
Inductive Op :=
| OpCreateCustomer (name email phone : string)
| OpCreateAccount (customer_id : Z) (type : string)
| OpDeposit (account_id : Z) (amount : Q)
| OpWithdraw (account_id : Z) (amount : Q)
| OpTransfer (from_account_id to_account_id : Z) (amount : Q).

(** A call whose amount, if it has one, is a whole number of hundredths. *)
Definition whole_cents (o : Op) : Prop :=
  match o with
  | OpDeposit _ amount | OpWithdraw _ amount | OpTransfer _ _ amount =>
      exists k, amount = cents k
  | _ => True
  end.

Definition run_op (o : Op) (p : FaultPlan) (c : Conn) : Conn :=
  match o with
  | OpCreateCustomer name email phone => snd (call (createCustomer name email phone) p c)
  | OpCreateAccount cid ty => snd (call (createAccount cid ty) p c)
  | OpDeposit a amount => snd (call (deposit a amount) p c)
  | OpWithdraw a amount => snd (call (withdraw a amount) p c)
  | OpTransfer a b amount => snd (call (transfer a b amount) p c)
  end.

(** A session: the calls in order, each under its own fault plan. *)
Definition run_ops (l : list (Op * FaultPlan)) (c : Conn) : Conn :=
  fold_left (fun c op => run_op (fst op) (snd op) c) l c.

(** The session of the specification's scenario, up to the first deposit:
    one customer, a SAVINGS account 1 holding 50.00 and a CURRENT account 2
    holding nothing. *)
Definition scenario_conn : Conn :=
  run_ops [(OpCreateCustomer "Alice" "a@x.com" "555-0100", no_fault);
           (OpCreateAccount 1 "SAVINGS", no_fault);
           (OpCreateAccount 1 "CURRENT", no_fault);
           (OpDeposit 1 (cents 5000), no_fault)] fresh_conn.

Definition savings_row : AccountRow := mkAccountRow 1 "SAVINGS" 5000.
Definition current_row : AccountRow := mkAccountRow 1 "CURRENT" 0.

(** ** Outcomes of a call *)

(** Rejected before any request to the store: the result is [false], the
    connection is the same and the fault plan has not been consulted. *)
Definition rejected_untouched (m : Gw bool) (c : Conn) : Prop :=
  forall p, m c p = (Ok false, c, p).

(** Declined with the connection, hence every balance and the log, as it
    was, whatever the fault plan. *)
Definition declined_unchanged (m : Gw bool) (c : Conn) : Prop :=
  forall p, call m p c = (Ok false, c).






(** The requests of a [transfer] that reaches its commit, in order:
    0 and 1 the two [getAccount] reads, 2 [setAutoCommit(false)], 3 the
    debit, 4 the credit, 5 and 6 the two records, 7 [commit],
    8 [setAutoCommit(true)]. *)
Definition last_request_of_unit : nat := 7.

(** The scenario of the specification, carried to its end. *)
Definition scenario_ops : list (Op * FaultPlan) :=
  [(OpCreateCustomer "Alice" "a@x.com" "555-0100", no_fault);
   (OpCreateAccount 1 "SAVINGS", no_fault);
   (OpDeposit 1 (cents 5000), no_fault);
   (OpWithdraw 1 (cents 2000), no_fault);
   (OpCreateAccount 1 "CURRENT", no_fault);
   (OpTransfer 1 2 (cents 1000), no_fault);
   (OpTransfer 1 2 (cents 500), fault_at 5);
   (OpWithdraw 2 (cents 5000), no_fault)].

(** ** What the caller is told *)

(** The named account does not exist. *)
Definition not_found (c : Conn) (account_id : Z) : Prop :=
  accounts (working c) !! account_id = None.

(** The account exists and holds less than the amount. *)
Definition insufficient_funds (c : Conn) (account_id : Z) (amount : Q) : Prop :=
  exists row,
    accounts (working c) !! account_id = Some row /\
    (cents (ar_balance row) < amount)%Q.

(** The result of [withdraw], or of [transfer], tells a missing account
    from a short balance: there are two calls, one in each case, with
    different results. *)
Definition withdraw_distinguishes : Prop :=
  exists c1 a1 amount1 p1 c2 a2 amount2 p2,
    not_found c1 a1 /\ insufficient_funds c2 a2 amount2 /\
    fst (call (withdraw a1 amount1) p1 c1) <> fst (call (withdraw a2 amount2) p2 c2).

Definition transfer_distinguishes : Prop :=
  exists c1 a1 b1 amount1 p1 c2 a2 b2 amount2 p2,
    (not_found c1 a1 \/ not_found c1 b1) /\ insufficient_funds c2 a2 amount2 /\
    fst (call (transfer a1 b1 amount1) p1 c1) <> fst (call (transfer a2 b2 amount2) p2 c2).

(** ** Two clients on one server *)

(** [withdraw]'s [try] block in its two parts: the balance check, read in
    autocommit mode, and the atomic unit that follows it. *)
Definition withdraw_check (account_id : Z) (amount : Q) : Gw (option bool) :=
  a <- getAccount account_id ;;
  if id a <? 0 then ret (Some false) else
  if Qlt_bool (cents (balance a)) amount then ret (Some false) else
  ret None.

Definition withdraw_unit (account_id : Z) (amount : Q) : Gw bool :=
  setAutoCommit false ;;
  execute (UpdateBalanceSub amount account_id) ;;
  execute (InsertTransaction account_id WITHDRAW amount "Withdrawal via app") ;;
  commit ;;
  setAutoCommit true ;;
  ret true.

(** Where a client stands in its call of [withdraw]. *)
Inductive Client :=
| AtEntry
| Checked
| Returned (r : bool).

(** One turn of a client against the server: the check, or the whole
    unit, run without interruption and without fault.  The server is
    given as the idle connection every client has to it between turns;
    whole units never overlap, the most a store can do for the engine. *)
Definition client_step (account_id : Z) (amount : Q) (s : Client) (srv : Conn)
    : Client * Conn :=
  match s with
  | AtEntry =>
      if Qle_bool amount 0 then (Returned false, srv) else
      match call (withdraw_check account_id amount) no_fault srv with
      | (Ok (Some r), srv') => (Returned r, srv')
      | (Ok None, srv') => (Checked, srv')
      | (Throw, srv') => (Returned false, snd (call rollback_and_fail no_fault srv'))
      end
  | Checked =>
      match call (try_catch (withdraw_unit account_id amount) rollback_and_fail)
                 no_fault srv with
      | (Ok r, srv') => (Returned r, srv')
      | (Throw, srv') => (Returned false, srv')
      end
  | Returned r => (Returned r, srv)
  end.

(** Two clients withdrawing the same amount from the same account; the
    schedule says whose turn it is, [false] for the first client. *)
Definition system_step (account_id : Z) (amount : Q) (st : Client * Client * Conn)
    (second : bool) : Client * Client * Conn :=
  let '(s1, s2, srv) := st in
  if second
  then let '(s2', srv') := client_step account_id amount s2 srv in (s1, s2', srv')
  else let '(s1', srv') := client_step account_id amount s1 srv in (s1', s2, srv').

Definition run_schedule (account_id : Z) (amount : Q) (schedule : list bool)
    (srv : Conn)
    : Client * Client * Conn :=
  fold_left (system_step account_id amount) schedule (AtEntry, AtEntry, srv).

(** Account 1 holding 100.00. *)
Definition race_conn : Conn :=
  run_ops [(OpCreateCustomer "Alice" "a@x.com" "555-0100", no_fault);
           (OpCreateAccount 1 "SAVINGS", no_fault);
           (OpDeposit 1 (cents 10000), no_fault)] fresh_conn.

(** The two turns a client takes when it is left alone. *)
Definition client_run (account_id : Z) (amount : Q) (srv : Conn) : Client * Conn :=
  let '(s, srv1) := client_step account_id amount AtEntry srv in
  client_step account_id amount s srv1.

(** ** The directory and the audit reader *)

(** [struct Customer]. *)
Record Customer := mkCustomer {
  cust_id : Z;
  cust_name : string;
  cust_email : string;
  cust_phone : string
}.

(** [SELECT ... FROM customers WHERE customer_id = ?]: the row, if any. *)
Definition query_customer (customer_id : Z) : Gw (option CustomerRow) :=
  request (fun c => (Ok (customers (working c) !! customer_id), c)).

(** [SELECT customer_id,name,email,phone FROM customers]: every row with
    its key.  The statement has no [ORDER BY]; the order is the store's. *)
Definition query_customers : Gw (list (Z * CustomerRow)) :=
  request (fun c => (Ok (map_to_list (customers (working c))), c)).

(** [SELECT ... FROM accounts WHERE customer_id = ?]. *)
Definition query_accounts_by_customer (customer_id : Z) : Gw (list (Z * AccountRow)) :=
  request (fun c =>
    (Ok (filter (fun kr => ar_customer_id (snd kr) = customer_id)
                (map_to_list (accounts (working c)))), c)).

(** [SELECT ... FROM transactions WHERE account_id = ? ORDER BY created_at
    DESC LIMIT ?].  Two things are the server's and not in the source:
    [created_at] is not part of the model, so the order is a parameter,
    [by_created_at]; and what the server makes of a negative [LIMIT], an
    error or some rows, is the parameter [on_negative_limit], applied to
    the ordered rows of the account. *)
Definition query_recent
    (by_created_at : list TransactionRecord -> list TransactionRecord)
    (on_negative_limit : list TransactionRecord -> Res (list TransactionRecord))
    (account_id limit : Z) : Gw (list TransactionRecord) :=
  request (fun c =>
    let rows := by_created_at
                  (filter (fun r => tr_account_id r = account_id)
                          (transactions (working c))) in
    if limit <? 0 then (on_negative_limit rows, c) else
    (Ok (take (Z.to_nat limit) rows), c)).

Definition customer_of (kr : Z * CustomerRow) : Customer :=
  mkCustomer (fst kr) (cr_name (snd kr)) (cr_email (snd kr)) (cr_phone (snd kr)).

Definition account_of (kr : Z * AccountRow) : Account :=
  mkAccount (fst kr) (ar_customer_id (snd kr)) (ar_account_type (snd kr))
            (ar_balance (snd kr)).

(** [Bank::listCustomers]. *)
Definition listCustomers : Gw (list Customer) :=
  try_catch
    (rs <- query_customers ;;
     ret (customer_of <$> rs))
    (ret []).

(** [Bank::getCustomer]: [c.id = -1] unless a row is found. *)
Definition getCustomer (customer_id : Z) : Gw Customer :=
  let c := mkCustomer (-1) EmptyString EmptyString EmptyString in
  try_catch
    (rs <- query_customer customer_id ;;
     match rs with
     | Some row => ret (customer_of (customer_id, row))
     | None => ret c
     end)
    (ret c).

(** [Bank::listAccountsByCustomer]. *)
Definition listAccountsByCustomer (customer_id : Z) : Gw (list Account) :=
  try_catch
    (rs <- query_accounts_by_customer customer_id ;;
     ret (account_of <$> rs))
    (ret []).

(** [Bank::recentTransactions]. *)
Definition recentTransactions
    (by_created_at : list TransactionRecord -> list TransactionRecord)
    (on_negative_limit : list TransactionRecord -> Res (list TransactionRecord))
    (account_id limit : Z) : Gw (list TransactionRecord) :=
  try_catch
    (rs <- query_recent by_created_at on_negative_limit account_id limit ;;
     ret rs)
    (ret []).

(** Most recent first when no two records share a [created_at]: the log
    of the account in reverse. *)
Definition newest_first (l : list TransactionRecord) : list TransactionRecord := rev l.

(** A server that refuses a negative [LIMIT]. *)
Definition refuse_negative (rows : list TransactionRecord)
    : Res (list TransactionRecord) := Throw.

(** ** Money in the store *)

(** The money held by all accounts together. *)
Definition total_balance (t : Tables) : Z :=
  map_fold (fun _ row acc => ar_balance row + acc) 0 (accounts t).

(** The signed amounts of the whole log, added up. *)
Definition total_signed (txs : list TransactionRecord) : Z :=
  foldr (fun r acc => signed_amount r + acc) 0 txs.

(** The number of the request that follows the commit, the last
    [setAutoCommit(true)], in each of the three money operations. *)
Definition deposit_last_request : nat := 4.
Definition withdraw_last_request : nat := 5.
Definition transfer_last_request : nat := 8.

(** ** Integrity of the store *)

(** What the schema and the engine keep true of a set of tables, given
    the next keys [nc], [na], [nt] of the three tables: keys are positive
    and below the next key; every account has its customer and every
    record its account (the two foreign keys); no record has a negative
    amount; the keys of the log increase in insertion order. *)
Definition tables_wf (nc na nt : Z) (t : Tables) : Prop :=
  (forall k row, customers t !! k = Some row -> 0 < k < nc) /\
  (forall k row, accounts t !! k = Some row ->
     0 < k < na /\ is_Some (customers t !! ar_customer_id row)) /\
  (forall r, r ∈ transactions t ->
     0 < tr_id r < nt /\ 0 <= tr_amount r /\
     is_Some (accounts t !! tr_account_id r)) /\
  StronglySorted Z.lt (tr_id <$> transactions t).

Definition store_wf (c : Conn) : Prop :=
  (0 < next_customer_id c /\ 0 < next_account_id c /\ 0 < next_transaction_id c) /\
  tables_wf (next_customer_id c) (next_account_id c) (next_transaction_id c)
            (committed c) /\
  tables_wf (next_customer_id c) (next_account_id c) (next_transaction_id c)
            (working c).

(** The committed log extends [l], and the log as the connection sees it
    extends the committed log. *)
Definition log_extends (l : list TransactionRecord) (c : Conn) : Prop :=
  l `prefix_of` transactions (committed c) /\
  transactions (committed c) `prefix_of` transactions (working c).

(** A program of the gateway monad keeps a property of the connection,
    whatever the fault plan and however it ends. *)
Definition keeps (I : Conn -> Prop) {A} (m : Gw A) : Prop :=
  forall c p, I c -> I (snd (fst (m c p))).

(** The statements the engine issues, their amount having passed the
    guard [amount <= 0]. *)
Definition stmt_positive (s : Stmt) : Prop :=
  match s with
  | InsertTransaction _ _ amount _ => is_positive amount
  | _ => True
  end.

(** A property that every request of the gateway keeps. *)
Definition gateway_keeps (I : Conn -> Prop) : Prop :=
  (forall b, keeps I (setAutoCommit b)) /\
  keeps I commit /\
  keeps I rollback /\
  (forall s, stmt_positive s -> keeps I (execute s)).

(** ** The console *)

(** Choice 8 of the menu of [main], "View Account & Recent Transactions":
    what is shown for an account, [None] standing for the line
    "Account not found".  The printing itself is left out. *)
Definition menu_view
    (by_created_at : list TransactionRecord -> list TransactionRecord)
    (on_negative_limit : list TransactionRecord -> Res (list TransactionRecord))
    (aid : Z) : Gw (option (Account * list TransactionRecord)) :=
  a <- getAccount aid ;;
  if 0 <? id a then
    tx <- recentTransactions by_created_at on_negative_limit aid 10 ;;
    ret (Some (a, tx))
  else ret None.

(** ** Balances that are not negative *)

(** No row of [accounts] holds a negative balance. *)
Definition balances_nonneg (ac : gmap Z AccountRow) : Prop :=
  map_Forall (fun _ row => 0 <= ar_balance row) ac.

Definition conn_nonneg (c : Conn) : Prop :=
  balances_nonneg (accounts (committed c)) /\ balances_nonneg (accounts (working c)).

(** ** Balances that are the sum of their records *)


(** * Properties *)

(** ** Amounts and rounding *)

Lemma Qle_bool_cents k : Qle_bool (cents k) 0 = (k <=? 0).
Proof. unfold Qle_bool, cents; simpl. rewrite Z.mul_1_r. reflexivity. Qed.

Lemma Qlt_bool_cents b k : Qlt_bool (cents b) (cents k) = (b <? k).
Proof.
  unfold Qlt_bool, Qle_bool, cents; simpl. rewrite !Z.mul_1_r.
  rewrite Z.ltb_antisym. reflexivity.
Qed.

Lemma Qlt_bool_true x y : Qlt_bool x y = true <-> (x < y)%Q.
Proof.
  unfold Qlt_bool. rewrite negb_true_iff. split.
  - intros H. apply Qnot_le_lt. intros Hle. apply Qle_bool_iff in Hle. congruence.
  - intros H. destruct (Qle_bool y x) eqn:Hb; [|reflexivity].
    apply Qle_bool_iff in Hb. exfalso. exact (Qlt_not_le _ _ H Hb).
Qed.

Lemma is_positive_Qlt q : is_positive q <-> (0 < q)%Q.
Proof.
  unfold is_positive. split.
  - intros H. apply Qnot_le_lt. intros Hle. apply Qle_bool_iff in Hle. congruence.
  - intros H. destruct (Qle_bool q 0) eqn:Hb; [|reflexivity].
    apply Qle_bool_iff in Hb. exfalso. exact (Qlt_not_le _ _ H Hb).
Qed.

Lemma covers_Qle b q : covers b q <-> (q <= cents b)%Q.
Proof.
  unfold covers. split.
  - intros H. apply Qnot_lt_le. intros Hlt. apply Qlt_bool_true in Hlt. congruence.
  - intros H. destruct (Qlt_bool (cents b) q) eqn:Hb; [|reflexivity].
    apply Qlt_bool_true in Hb. exfalso. exact (Qlt_not_le _ _ Hb H).
Qed.

Lemma is_positive_cents k : is_positive (cents k) <-> 0 < k.
Proof.
  unfold is_positive. rewrite Qle_bool_cents. destruct (Z.leb_spec k 0); split;
    intros; try lia; try discriminate; reflexivity.
Qed.

Lemma covers_cents b k : covers b (cents k) <-> k <= b.
Proof.
  unfold covers. rewrite Qlt_bool_cents. destruct (Z.ltb_spec b k); split;
    intros; try lia; try discriminate; reflexivity.
Qed.

Lemma round_cents_whole n : round_cents (n # 1) = n.
Proof.
  unfold round_cents; cbn [Qnum Qden]. destruct (Z.leb_spec 0 n).
  - symmetry. apply Z.div_unique with (r := 1); lia.
  - replace ((2 * - n + 1) / (2 * 1)) with (- n); [lia|].
    apply Z.div_unique with (r := 1); lia.
Qed.

Lemma round_cents_cents k : round_cents (cents k) = k.
Proof. apply round_cents_whole. Qed.

Lemma round_cents_plus b k : round_cents (cents b + cents k) = b + k.
Proof.
  unfold cents, inject_Z, Qplus; simpl.
  rewrite !Z.mul_1_r. apply round_cents_whole.
Qed.

Lemma round_cents_minus b k : round_cents (cents b + - cents k) = b + - k.
Proof.
  unfold cents, inject_Z, Qplus, Qopp; simpl.
  rewrite !Z.mul_1_r. apply round_cents_whole.
Qed.

Lemma add_balance_cents k r :
  add_balance (cents k) r =
    mkAccountRow (ar_customer_id r) (ar_account_type r) (ar_balance r + k).
Proof. unfold add_balance. rewrite round_cents_plus. reflexivity. Qed.

Lemma add_balance_opp_cents k r :
  add_balance (- cents k) r =
    mkAccountRow (ar_customer_id r) (ar_account_type r) (ar_balance r + - k).
Proof. unfold add_balance. rewrite round_cents_minus. reflexivity. Qed.

Lemma round_cents_nonneg q : (0 <= q)%Q -> 0 <= round_cents q.
Proof.
  intros H. unfold Qle in H; simpl in H. rewrite Z.mul_1_r in H.
  unfold round_cents. destruct (Z.leb_spec 0 (Qnum q)); [|lia].
  apply Z.div_pos; lia.
Qed.

(** ** Symbolic execution of the engine *)

Ltac gw_step :=
  cbv beta iota zeta delta
    [call deposit withdraw transfer deposit_try withdraw_try transfer_try
     getAccount createCustomer createAccount
     rollback_and_fail try_catch bind ret request setAutoCommit execute
     commit rollback query_last_insert_id query_account apply_stmt
     set_working committed working autocommit next_customer_id
     next_account_id next_transaction_id last_insert_id
     customers accounts transactions id balance no_fault fault_at orb].

Lemma idle_inv c :
  idle c ->
  c = mkConn (committed c) (committed c) true (next_customer_id c)
             (next_account_id c) (next_transaction_id c) (last_insert_id c).
Proof. destruct c; intros [H1 H2]; simpl in *; subst; reflexivity. Qed.

Lemma idle_mk t nc na nt li : idle (mkConn t t true nc na nt li).
Proof. split; reflexivity. Qed.

#[local] Hint Resolve idle_mk : core.

Lemma alter_missing {A} (f : A -> A) (m : gmap Z A) i :
  m !! i = None -> alter f i m = m.
Proof. intros H. apply alter_id. intros x Hx. congruence. Qed.

Ltac gw_lookup :=
  repeat match goal with
  | H : ?m !! ?k = _ |- context [?m !! ?k] => rewrite H
  | H : ?m !! ?k = None |- context [alter _ ?k ?m] => rewrite (alter_missing _ m k H)
  | |- context [alter _ ?i _ !! ?i] => rewrite lookup_alter_eq
  | H : ?i <> ?j |- context [alter _ ?i _ !! ?j] => rewrite (lookup_alter_ne _ _ i j H)
  | H : ?j <> ?i |- context [alter _ ?i _ !! ?j] =>
      rewrite (lookup_alter_ne _ _ i j (not_eq_sym H))
  end;
  cbn [fmap option_fmap option_map].

Ltac gw_run := repeat (gw_step; gw_lookup).

Ltac landed :=
  do 2 eexists; split; [reflexivity|];
  unfold lands, is_positive, covers; cbn [committed working]; intuition eauto.

Ltac gw_cmp :=
  rewrite ?Qle_bool_cents, ?Qlt_bool_cents;
  repeat match goal with
  | H : Qle_bool ?a ?b = _ |- context [Qle_bool ?a ?b] => rewrite H
  | H : Qlt_bool ?a ?b = _ |- context [Qlt_bool ?a ?b] => rewrite H
  | H : is_positive ?a |- context [Qle_bool ?a ?b] =>
      rewrite (H : Qle_bool a 0%Q = false)
  | H : covers ?x ?a |- context [Qlt_bool (cents ?x) ?a] =>
      rewrite (H : Qlt_bool (cents x) a = false)
  | |- context [Qle_bool ?a ?b] => destruct (Qle_bool a b) eqn:?
  | |- context [Qlt_bool ?a ?b] => destruct (Qlt_bool a b) eqn:?
  | |- context [?a <? ?b] => destruct (Z.ltb_spec a b)
  | |- context [?a <=? ?b] => destruct (Z.leb_spec a b)
  end; try lia.

Ltac gw_all := repeat (gw_step; gw_lookup; gw_cmp).


Lemma deposit_ok account_id amount c :
  idle c -> is_positive amount ->
  is_Some (accounts (committed c) !! account_id) ->
  call (deposit account_id amount) no_fault c =
    (Ok true,
     let t := deposit_post (committed c) (next_transaction_id c) account_id amount in
     mkConn t t true (next_customer_id c) (next_account_id c)
            (next_transaction_id c + 1) (next_transaction_id c)).
Proof.
  intros Hc Hpos [row Hrow]. rewrite (idle_inv c Hc).
  destruct c as [[cu ac tx] wk au nc na nt li]. simpl in Hrow.
  unfold deposit_post. gw_all. reflexivity.
Qed.


Lemma deposit_cases account_id amount c p :
  exists r c',
    call (deposit account_id amount) p c = (Ok r, c') /\
    lands c c'
      (deposit_post (working c) (next_transaction_id c) account_id amount)
      (is_positive amount /\ is_Some (accounts (working c) !! account_id)).
Proof.
  destruct c as [cm [cu ac tx] au nc na nt li].
  unfold deposit_post.
  destruct (ac !! account_id) as [row|] eqn:Hrow;
  destruct au; destruct p as [[|[|[|[|[|k]]]]]|]; gw_all; landed.
Qed.

Lemma withdraw_cases account_id amount c p :
  exists r c',
    call (withdraw account_id amount) p c = (Ok r, c') /\
    lands c c'
      (withdraw_post (working c) (next_transaction_id c) account_id amount)
      (is_positive amount /\
       exists row, accounts (working c) !! account_id = Some row /\
                   covers (ar_balance row) amount).
Proof.
  destruct c as [cm [cu ac tx] au nc na nt li].
  unfold withdraw_post.
  destruct (ac !! account_id) as [row|] eqn:Hrow;
  destruct p as [[|[|[|[|[|[|k]]]]]]|]; gw_all;
  first [ landed | destruct au; gw_all; landed ].
Qed.

Lemma transfer_cases from_account_id to_account_id amount c p :
  exists r c',
    call (transfer from_account_id to_account_id amount) p c = (Ok r, c') /\
    lands c c'
      (transfer_post (working c) (next_transaction_id c)
         from_account_id to_account_id amount)
      (is_positive amount /\
       is_Some (accounts (working c) !! to_account_id) /\
       exists row, accounts (working c) !! from_account_id = Some row /\
                   covers (ar_balance row) amount).
Proof.
  destruct c as [cm [cu ac tx] au nc na nt li].
  unfold transfer_post.
  destruct (decide (from_account_id = to_account_id)) as [->|Hne];
  destruct (ac !! to_account_id) as [row2|] eqn:Hrow2;
  try destruct (ac !! from_account_id) as [row|] eqn:Hrow;
  destruct p as [[|[|[|[|[|[|[|[|[|k]]]]]]]]]|]; gw_all;
  rewrite <- ?app_assoc; cbn [app];
  first [ landed | destruct au; gw_all; landed ].
Qed.

(** ** The ledger invariant is kept by every call in whole hundredths *)

Ltac whole :=
  rewrite ?add_balance_cents, ?add_balance_opp_cents, ?round_cents_cents.

Lemma signed_sum_app k l1 l2 :
  signed_sum k (l1 ++ l2) = signed_sum k l1 + signed_sum k l2.
Proof.
  induction l1 as [|r l1 IH]; simpl; [reflexivity|].
  rewrite IH. destruct (tr_account_id r =? k); lia.
Qed.

Lemma signed_sum_one k n a ty amount d :
  signed_sum k [mkTransactionRecord n a ty amount d] =
    if a =? k then signed_amount (mkTransactionRecord n a ty amount d) else 0.
Proof. simpl. destruct (a =? k); lia. Qed.

Lemma ledger_inv_deposit t n a amount :
  ledger_inv t -> 0 < amount -> is_Some (accounts t !! a) ->
  ledger_inv (deposit_post t n a (cents amount)).
Proof.
  intros Hinv Hpos [row Hrow] k. specialize (Hinv k).
  unfold deposit_post; cbn [accounts transactions]. whole.
  rewrite signed_sum_app, signed_sum_one, lookup_alter.
  destruct (decide (a = k)) as [->|Hne].
  - rewrite Hrow in *. rewrite Z.eqb_refl. cbn [fmap option_fmap option_map]. whole.
    unfold signed_amount. simpl. lia.
  - apply Z.eqb_neq in Hne. rewrite Hne, Z.add_0_r. exact Hinv.
Qed.

Lemma ledger_inv_withdraw t n a amount row :
  ledger_inv t -> 0 < amount ->
  accounts t !! a = Some row -> amount <= ar_balance row ->
  ledger_inv (withdraw_post t n a (cents amount)).
Proof.
  intros Hinv Hpos Hrow Hle k. specialize (Hinv k).
  unfold withdraw_post; cbn [accounts transactions]. whole.
  rewrite signed_sum_app, signed_sum_one, lookup_alter.
  destruct (decide (a = k)) as [->|Hne].
  - rewrite Hrow in *. rewrite Z.eqb_refl. cbn [fmap option_fmap option_map]. whole.
    unfold signed_amount. simpl. lia.
  - apply Z.eqb_neq in Hne. rewrite Hne, Z.add_0_r. exact Hinv.
Qed.

Lemma ledger_inv_transfer t n a b amount row :
  ledger_inv t -> 0 < amount ->
  is_Some (accounts t !! b) ->
  accounts t !! a = Some row -> amount <= ar_balance row ->
  ledger_inv (transfer_post t n a b (cents amount)).
Proof.
  intros Hinv Hpos [row2 Hrow2] Hrow Hle k. specialize (Hinv k).
  unfold transfer_post; cbn [accounts transactions]. whole.
  rewrite signed_sum_app. cbn [signed_sum foldr tr_account_id signed_amount tr_type tr_amount].
  rewrite !lookup_alter.
  destruct (decide (b = k)) as [->|Hb]; destruct (decide (a = k)) as [->|Ha];
    rewrite ?Z.eqb_refl;
    repeat match goal with
    | H : ?x <> ?y |- _ => apply Z.eqb_neq in H; rewrite H
    end.
  - assert (row2 = row) as -> by congruence.
    rewrite Hrow in *. cbn [fmap option_fmap option_map]. whole.
    cbn [ar_balance]. lia.
  - rewrite Hrow2 in *. cbn [fmap option_fmap option_map]. whole.
    cbn [ar_balance]. lia.
  - rewrite Hrow in *. cbn [fmap option_fmap option_map]. whole.
    cbn [ar_balance]. lia.
  - rewrite Z.add_0_r. exact Hinv.
Qed.

Lemma ledger_inv_customer t n name email phone :
  ledger_inv t -> ledger_inv (customer_post t n name email phone).
Proof. intros Hinv k. exact (Hinv k). Qed.

Lemma ledger_inv_account t n cid ty :
  ledger_inv t -> accounts t !! n = None ->
  ledger_inv (account_post t n cid ty).
Proof.
  intros Hinv Hfree k. specialize (Hinv k).
  unfold account_post; cbn [accounts transactions].
  rewrite lookup_insert. destruct (decide (n = k)) as [->|Hne]; [|exact Hinv].
  rewrite Hfree in Hinv. simpl. lia.
Qed.

Lemma createCustomer_cases name email phone c p :
  exists r c',
    call (createCustomer name email phone) p c = (Ok r, c') /\
    lands c c' (customer_post (working c) (next_customer_id c) name email phone) True.
Proof.
  destruct c as [cm [cu ac tx] au nc na nt li]. unfold customer_post.
  destruct (cu !! nc) as [x|] eqn:Hx;
  destruct p as [[|[|k]]|]; gw_all; destruct au; landed.
Qed.

Lemma createAccount_cases cid ty c p :
  exists r c',
    call (createAccount cid ty) p c = (Ok r, c') /\
    lands c c' (account_post (working c) (next_account_id c) cid ty)
      (accounts (working c) !! next_account_id c = None).
Proof.
  destruct c as [cm [cu ac tx] au nc na nt li]. unfold account_post.
  destruct (cu !! cid) as [x|] eqn:Hx;
  destruct (ac !! na) as [y|] eqn:Hy;
  destruct p as [[|[|k]]|]; gw_all; destruct au; landed.
Qed.

Lemma lands_keeps (P : Tables -> Prop) c c' post (ok : Prop) :
  P (committed c) -> P (working c) -> lands c c' post ok -> (ok -> P post) ->
  P (committed c') /\ P (working c').
Proof.
  intros Hc Hw [H1 H2] Hpost. split.
  - destruct H1 as [->|[Hok ->]]; auto.
  - destruct H2 as [->|[->|[Hok ->]]]; auto.
Qed.

Lemma lands_inv c c' post (ok : Prop) :
  conn_inv c -> lands c c' post ok -> (ok -> ledger_inv post) -> conn_inv c'.
Proof.
  intros [Hc Hw] [H1 H2] Hpost. split.
  - destruct H1 as [->|[Hok ->]]; auto.
  - destruct H2 as [->|[->|[Hok ->]]]; auto.
Qed.

Lemma run_op_inv o p c : whole_cents o -> conn_inv c -> conn_inv (run_op o p c).
Proof.
  intros Hw Hinv.
  destruct o as [n e ph|cid ty|a amt|a amt|a b amt]; cbn [run_op whole_cents] in *.
  - destruct (createCustomer_cases n e ph c p) as (r & c' & -> & Hl).
    apply (lands_inv _ _ _ _ Hinv Hl). intros _.
    apply ledger_inv_customer, Hinv.
  - destruct (createAccount_cases cid ty c p) as (r & c' & -> & Hl).
    apply (lands_inv _ _ _ _ Hinv Hl). intros Hfree.
    apply ledger_inv_account; [apply Hinv | exact Hfree].
  - destruct Hw as [k ->].
    destruct (deposit_cases a (cents k) c p) as (r & c' & -> & Hl).
    apply (lands_inv _ _ _ _ Hinv Hl). intros [Hpos Hex].
    apply is_positive_cents in Hpos.
    apply ledger_inv_deposit; [apply Hinv | assumption..].
  - destruct Hw as [k ->].
    destruct (withdraw_cases a (cents k) c p) as (r & c' & -> & Hl).
    apply (lands_inv _ _ _ _ Hinv Hl). intros (Hpos & row & Hrow & Hle).
    apply is_positive_cents in Hpos. apply covers_cents in Hle.
    eapply ledger_inv_withdraw; [apply Hinv | eassumption..].
  - destruct Hw as [k ->].
    destruct (transfer_cases a b (cents k) c p) as (r & c' & -> & Hl).
    apply (lands_inv _ _ _ _ Hinv Hl). intros (Hpos & Hto & row & Hrow & Hle).
    apply is_positive_cents in Hpos. apply covers_cents in Hle.
    eapply ledger_inv_transfer; [apply Hinv | eassumption..].
Qed.

Lemma fresh_conn_inv : conn_inv fresh_conn.
Proof. split; intros k; cbn; rewrite lookup_empty; reflexivity. Qed.

Lemma run_ops_inv l c :
  Forall (fun op => whole_cents (fst op)) l -> conn_inv c -> conn_inv (run_ops l c).
Proof.
  revert c. induction l as [|[o p] l IH]; intros c Hall Hinv; [exact Hinv|].
  apply Forall_cons in Hall as [Ho Hall].
  cbn [run_ops fold_left fst snd]. apply IH; [exact Hall|].
  apply run_op_inv; assumption.
Qed.

Lemma run_ops_snoc l o p c :
  run_ops (l ++ [(o, p)]) c = run_op o p (run_ops l c).
Proof. unfold run_ops. rewrite fold_left_app. reflexivity. Qed.

(** ** Declined and committed calls *)




Lemma transfer_rejects a b amount c p :
  (amount <= 0)%Q -> transfer a b amount c p = (Ok false, c, p).
Proof.
  intros H. unfold transfer. apply Qle_bool_iff in H. rewrite H. reflexivity.
Qed.

Lemma withdraw_declines account_id amount c p :
  not_found c account_id \/ insufficient_funds c account_id amount ->
  call (withdraw account_id amount) p c = (Ok false, c).
Proof.
  unfold not_found, insufficient_funds.
  destruct c as [cm [cu ac tx] au nc na nt li]. cbn [working accounts].
  intros [Hrow|(row & Hrow & Hlt)]; [|apply Qlt_bool_true in Hlt];
    destruct p as [[|k]|]; gw_all; reflexivity.
Qed.

Lemma withdraw_ok account_id amount c row :
  idle c -> 0 <= account_id -> is_positive amount ->
  accounts (committed c) !! account_id = Some row ->
  covers (ar_balance row) amount ->
  call (withdraw account_id amount) no_fault c =
    (Ok true,
     let t := withdraw_post (committed c) (next_transaction_id c) account_id amount in
     mkConn t t true (next_customer_id c) (next_account_id c)
            (next_transaction_id c + 1) (next_transaction_id c)).
Proof.
  intros Hc Hid Hpos Hrow Hle. rewrite (idle_inv c Hc).
  destruct c as [[cu ac tx] wk au nc na nt li]. simpl in Hrow.
  unfold withdraw_post. gw_all. reflexivity.
Qed.

Lemma transfer_declines a b amount c p :
  not_found c a \/ not_found c b \/ insufficient_funds c a amount ->
  call (transfer a b amount) p c = (Ok false, c).
Proof.
  unfold not_found, insufficient_funds.
  destruct c as [cm [cu ac tx] au nc na nt li]. cbn [working accounts].
  intros [Hrow|[Hrow|(row & Hrow & Hlt)]]; [| |apply Qlt_bool_true in Hlt];
    destruct (ac !! a) as [ra|] eqn:Ha; destruct (ac !! b) as [rb|] eqn:Hb;
    try discriminate; try (injection Hrow as ->);
    destruct p as [[|[|k]]|]; gw_all; reflexivity.
Qed.


Lemma positive_ids_lookup t k row :
  positive_ids t -> accounts t !! k = Some row -> 0 < k.
Proof. intros H Hk. exact (H k row Hk). Qed.


Lemma scenario_idle : idle scenario_conn.
Proof. split; reflexivity. Qed.

Lemma scenario_positive : positive_ids (committed scenario_conn).
Proof. apply (bool_decide_unpack _). vm_compute. exact I. Qed.

(** ** The three money operations *)













(** ** Faults inside the atomic unit of [transfer] *)

(** The fault of the specification's test, after the debit and before the
    credit: the [try] block throws with the debit applied on the
    connection and nothing committed. *)
Lemma transfer_try_fault_after_debit c a b amount row :
  idle c -> 0 <= a -> 0 <= b -> is_positive amount ->
  accounts (committed c) !! a = Some row ->
  is_Some (accounts (committed c) !! b) ->
  covers (ar_balance row) amount ->
  exists c',
    transfer_try a b amount c (fault_at 4) = (Throw, c', None) /\
    balance_of (working c') a =
      Some (round_cents (cents (ar_balance row) + - amount)) /\
    transactions (working c') = transactions (committed c) /\
    committed c' = committed c.
Proof.
  intros Hc Ha Hb Hpos Hrow [row2 Hrow2] Hle. rewrite (idle_inv c Hc).
  destruct c as [[cu ac tx] wk au nc na nt li]. simpl in Hrow, Hrow2.
  destruct (decide (a = b)) as [->|Hne];
    [rewrite Hrow in Hrow2; injection Hrow2 as <- |];
    gw_all; eexists; (split; [reflexivity|]);
    unfold balance_of; cbn [working committed accounts transactions];
    rewrite lookup_alter_eq, Hrow; auto.
Qed.

(** A fault on the last request, after the commit: the call reports
    failure although the whole unit is committed. *)
Lemma transfer_fault_after_commit c a b amount row :
  idle c -> 0 <= a -> 0 <= b -> is_positive amount ->
  accounts (committed c) !! a = Some row ->
  is_Some (accounts (committed c) !! b) ->
  covers (ar_balance row) amount ->
  exists c',
    call (transfer a b amount) (fault_at 8) c = (Ok false, c') /\
    committed c' = transfer_post (committed c) (next_transaction_id c) a b amount.
Proof.
  intros Hc Ha Hb Hpos Hrow [row2 Hrow2] Hle. rewrite (idle_inv c Hc).
  destruct c as [[cu ac tx] wk au nc na nt li]. simpl in Hrow, Hrow2.
  unfold transfer_post.
  destruct (decide (a = b)) as [->|Hne];
    [rewrite Hrow in Hrow2; injection Hrow2 as <- |];
    gw_all; rewrite <- ?app_assoc; eexists; (split; reflexivity).
Qed.

(** C1: a [transfer] hit by a storage fault on any request up to and
    including its commit (so also after the debit, the credit or the
    records have been applied on the connection) reports failure and
    leaves the connection idle with the committed tables exactly as
    before the call: every balance is what it was and the log has no new
    record.  The amount is any value of the argument, whole hundredths or
    not. *)
Theorem transfer_fault_rolls_back (c : Conn) (from_account_id to_account_id : Z)
    (amount : Q) (k : nat) :
  idle c -> (k <= last_request_of_unit)%nat ->
  exists c',
    call (transfer from_account_id to_account_id amount) (fault_at k) c = (Ok false, c') /\
    idle c' /\
    committed c' = committed c /\
    (forall j, balance_of (working c') j = balance_of (committed c) j) /\
    transactions (working c') = transactions (committed c).
Proof.
  intros Hc Hk. rewrite (idle_inv c Hc).
  destruct c as [[cu ac tx] wk au nc na nt li]. unfold last_request_of_unit in Hk.
  destruct (decide (from_account_id = to_account_id)) as [->|Hne];
  destruct (ac !! to_account_id) as [row2|] eqn:Hrow2;
  try destruct (ac !! from_account_id) as [row|] eqn:Hrow;
  destruct k as [|[|[|[|[|[|[|[|k]]]]]]]]; try lia; gw_all;
  eexists; (split; [reflexivity|]); cbn [committed working];
  (split; [apply idle_mk|]); auto.
Qed.

Lemma transfer_fault_rolls_back_witness :
  (idle scenario_conn /\ (4 <= last_request_of_unit)%nat) /\
  exists c',
    call (transfer 1 2 (cents 1000)) (fault_at 4) scenario_conn = (Ok false, c') /\
    idle c' /\
    committed c' = committed scenario_conn /\
    (forall j, balance_of (working c') j = balance_of (committed scenario_conn) j) /\
    transactions (working c') = transactions (committed scenario_conn).
Proof.
  assert (H : (4 <= last_request_of_unit)%nat) by (unfold last_request_of_unit; lia).
  split; [split; [exact scenario_idle | exact H]|].
  exact (transfer_fault_rolls_back scenario_conn 1 2 (cents 1000) 4 scenario_idle H).
Defined.

(** ** Sessions keep the ledger invariant *)

Lemma session_inv ops :
  Forall (fun op => whole_cents (fst op)) ops -> conn_inv (run_ops ops fresh_conn).
Proof. intros H. apply run_ops_inv; [exact H | apply fresh_conn_inv]. Qed.

Lemma ledger_inv_balance t account_id b :
  ledger_inv t -> balance_of t account_id = Some b ->
  0 <= b /\ b = signed_sum account_id (transactions t).
Proof.
  intros Hinv Hb. specialize (Hinv account_id). unfold balance_of in Hb.
  destruct (accounts t !! account_id) as [row|]; [|discriminate].
  injection Hb as <-. exact Hinv.
Qed.

Lemma scenario_whole : Forall (fun op => whole_cents (fst op)) scenario_ops.
Proof. repeat constructor; cbn [fst whole_cents]; eexists; reflexivity. Qed.








(** The race that overdraws account 1 leaves it reconciled: -100.00 is the
    sum of one deposit and two withdrawals of 100.00. *)
Example race_reconciled :
  let st := run_schedule 1 (cents 10000) [false; true; false; true] race_conn in
  balance_of (committed (snd st)) 1 = Some (-10000) /\
  signed_sum 1 (transactions (committed (snd st))) = -10000.
Proof. vm_compute. split; reflexivity. Qed.

(** The same holds of the tables as the connection sees them, which is
    what [getAccount] reads. *)
Lemma balance_view_sound (ops : list (Op * FaultPlan)) (account_id b : Z) :
  Forall (fun op => whole_cents (fst op)) ops ->
  balance_of (working (run_ops ops fresh_conn)) account_id = Some b ->
  0 <= b /\
  b = signed_sum account_id (transactions (working (run_ops ops fresh_conn))).
Proof.
  intros Hw Hb. exact (ledger_inv_balance _ _ _ (proj2 (session_inv ops Hw)) Hb).
Qed.

Example scenario_log :
  map (fun r => (tr_account_id r, tr_type r, tr_amount r))
      (transactions (committed (run_ops scenario_ops fresh_conn))) =
  [(1, DEPOSIT, 5000); (1, WITHDRAW, 2000); (1, TRANSFER, 1000); (2, DEPOSIT, 1000)].
Proof. reflexivity. Qed.

(** ** On one connection no balance goes below zero *)

Lemma round_credit_nonneg b q :
  0 <= b -> is_positive q -> 0 <= round_cents (cents b + q).
Proof.
  intros Hb Hq. apply round_cents_nonneg. apply is_positive_Qlt in Hq.
  apply Qlt_le_weak in Hq.
  replace 0%Q with (0 + 0)%Q by reflexivity.
  apply Qplus_le_compat; [|exact Hq].
  unfold cents, Qle; simpl. lia.
Qed.

Lemma round_debit_nonneg b q :
  covers b q -> 0 <= round_cents (cents b + - q).
Proof.
  intros Hq. apply round_cents_nonneg. apply covers_Qle in Hq.
  apply (proj1 (Qle_minus_iff q (cents b))). exact Hq.
Qed.

Lemma balances_nonneg_alter f a ac :
  balances_nonneg ac ->
  (forall row, ac !! a = Some row -> 0 <= ar_balance (f row)) ->
  balances_nonneg (alter f a ac).
Proof.
  intros Hac Hf k row. rewrite lookup_alter.
  destruct (decide (a = k)) as [->|Hne].
  - destruct (ac !! k) as [row0|] eqn:Hk; [|discriminate].
    cbn. intros [= <-]. apply Hf. reflexivity.
  - apply Hac.
Qed.

Lemma balances_nonneg_credit a amount ac :
  balances_nonneg ac -> is_positive amount ->
  balances_nonneg (alter (add_balance amount) a ac).
Proof.
  intros Hac Hpos. apply balances_nonneg_alter; [exact Hac|].
  intros row Hrow. cbn [add_balance ar_balance].
  apply round_credit_nonneg; [exact (Hac a row Hrow) | exact Hpos].
Qed.

Lemma balances_nonneg_debit a amount ac row :
  balances_nonneg ac -> ac !! a = Some row -> covers (ar_balance row) amount ->
  balances_nonneg (alter (add_balance (- amount)) a ac).
Proof.
  intros Hac Hrow Hle. apply balances_nonneg_alter; [exact Hac|].
  intros row' Hrow'. assert (row' = row) as -> by congruence.
  cbn [add_balance ar_balance]. apply round_debit_nonneg, Hle.
Qed.

Lemma lands_nonneg c c' post (ok : Prop) :
  conn_nonneg c -> lands c c' post ok ->
  (ok -> balances_nonneg (accounts post)) -> conn_nonneg c'.
Proof.
  intros [Hc Hw] [H1 H2] Hpost. split.
  - destruct H1 as [->|[Hok ->]]; auto.
  - destruct H2 as [->|[->|[Hok ->]]]; auto.
Qed.

Lemma run_op_nonneg o p c : conn_nonneg c -> conn_nonneg (run_op o p c).
Proof.
  intros Hinv.
  destruct o as [n e ph|cid ty|a amt|a amt|a b amt]; cbn [run_op].
  - destruct (createCustomer_cases n e ph c p) as (r & c' & -> & Hl).
    apply (lands_nonneg _ _ _ _ Hinv Hl). intros _. apply Hinv.
  - destruct (createAccount_cases cid ty c p) as (r & c' & -> & Hl).
    apply (lands_nonneg _ _ _ _ Hinv Hl). intros _.
    unfold account_post; cbn [accounts].
    apply map_Forall_insert_2; [cbn; lia | apply Hinv].
  - destruct (deposit_cases a amt c p) as (r & c' & -> & Hl).
    apply (lands_nonneg _ _ _ _ Hinv Hl). intros [Hpos Hex].
    apply balances_nonneg_credit; [apply Hinv | exact Hpos].
  - destruct (withdraw_cases a amt c p) as (r & c' & -> & Hl).
    apply (lands_nonneg _ _ _ _ Hinv Hl). intros (Hpos & row & Hrow & Hle).
    eapply balances_nonneg_debit; [apply Hinv | eassumption..].
  - destruct (transfer_cases a b amt c p) as (r & c' & -> & Hl).
    apply (lands_nonneg _ _ _ _ Hinv Hl). intros (Hpos & Hto & row & Hrow & Hle).
    apply balances_nonneg_credit; [|exact Hpos].
    eapply balances_nonneg_debit; [apply Hinv | eassumption..].
Qed.

Lemma session_nonneg ops : conn_nonneg (run_ops ops fresh_conn).
Proof.
  induction ops as [|[o p] ops IH] using rev_ind.
  - split; apply map_Forall_empty.
  - rewrite run_ops_snoc. apply run_op_nonneg, IH.
Qed.

(** X30: in every session on one connection that starts on the empty
    database, whatever calls it makes (account creations, deposits,
    withdrawals, transfers, with any arguments, amounts that are not whole
    hundredths included) and whichever request of each call a storage
    fault hits, the committed balance of every account is not negative at
    the end, hence after each call of the session. *)
Theorem serial_balance_never_negative (ops : list (Op * FaultPlan)) (account_id b : Z) :
  balance_of (committed (run_ops ops fresh_conn)) account_id = Some b ->
  0 <= b.
Proof.
  intros Hb. unfold balance_of in Hb.
  destruct (accounts (committed (run_ops ops fresh_conn)) !! account_id)
    as [row|] eqn:Hrow; [|discriminate].
  injection Hb as <-.
  exact (proj1 (session_nonneg ops) account_id row Hrow).
Qed.

Lemma serial_balance_never_negative_witness :
  balance_of (committed (run_ops scenario_ops fresh_conn)) 1 = Some 2000 /\
  0 <= 2000.
Proof.
  split; [reflexivity|].
  exact (serial_balance_never_negative scenario_ops 1 2000 eq_refl).
Defined.

(** ** The result does not tell the cases apart *)

Lemma withdraw_false_if_declined c a amount p :
  not_found c a \/ insufficient_funds c a amount ->
  fst (call (withdraw a amount) p c) = Ok false.
Proof. intros H. rewrite (withdraw_declines a amount c p H). reflexivity. Qed.

Lemma transfer_false_if_declined c a b amount p :
  not_found c a \/ not_found c b \/ insufficient_funds c a amount ->
  fst (call (transfer a b amount) p c) = Ok false.
Proof. intros H. rewrite (transfer_declines a b amount c p H). reflexivity. Qed.

(** C8, as stated, fails: neither [withdraw] nor [transfer] ever reports
    the two cases differently. *)
Lemma decline_cases_not_distinguished :
  ~ (withdraw_distinguishes /\ transfer_distinguishes).
Proof.
  intros [(c1 & a1 & m1 & p1 & c2 & a2 & m2 & p2 & Hnf & Hins & Hne) _].
  apply Hne.
  rewrite (withdraw_false_if_declined c1 a1 m1 p1 (or_introl Hnf)).
  rewrite (withdraw_false_if_declined c2 a2 m2 p2 (or_intror Hins)).
  reflexivity.
Qed.

(** C8, amended: [withdraw] and [transfer] return the one result [false]
    both when the account does not exist and when it exists with a balance
    below the amount, on every connection and under every fault plan. *)
Theorem decline_cases_same_result (c1 c2 : Conn) (a1 b1 a2 b2 : Z) (amount1 amount2 : Q)
    (p1 p2 : FaultPlan) :
  not_found c1 a1 -> insufficient_funds c2 a2 amount2 ->
  fst (call (withdraw a1 amount1) p1 c1) = Ok false /\
  fst (call (withdraw a2 amount2) p2 c2) = Ok false /\
  fst (call (transfer a1 b1 amount1) p1 c1) = Ok false /\
  fst (call (transfer b1 a1 amount1) p1 c1) = Ok false /\
  fst (call (transfer a2 b2 amount2) p2 c2) = Ok false.
Proof.
  intros Hnf Hins. repeat split.
  - apply withdraw_false_if_declined. auto.
  - apply withdraw_false_if_declined. auto.
  - apply transfer_false_if_declined. auto.
  - apply transfer_false_if_declined. auto.
  - apply transfer_false_if_declined. auto.
Qed.

Lemma scenario_not_found : not_found scenario_conn 7.
Proof. reflexivity. Qed.

Lemma scenario_insufficient : insufficient_funds scenario_conn 1 (cents 5001).
Proof. exists savings_row. split; reflexivity. Qed.

Lemma decline_cases_same_result_witness :
  (not_found scenario_conn 7 /\ insufficient_funds scenario_conn 1 (cents 5001)) /\
  fst (call (withdraw 7 (cents 5001)) no_fault scenario_conn) = Ok false /\
  fst (call (withdraw 1 (cents 5001)) no_fault scenario_conn) = Ok false /\
  fst (call (transfer 7 2 (cents 5001)) no_fault scenario_conn) = Ok false /\
  fst (call (transfer 2 7 (cents 5001)) no_fault scenario_conn) = Ok false /\
  fst (call (transfer 1 2 (cents 5001)) no_fault scenario_conn) = Ok false.
Proof.
  split; [split; [exact scenario_not_found | exact scenario_insufficient]|].
  exact (decline_cases_same_result scenario_conn scenario_conn 7 2 1 2
           (cents 5001) (cents 5001)
           no_fault no_fault scenario_not_found scenario_insufficient).
Defined.

(** ** [createCustomer] and the name *)

(** C9, as stated, fails: the empty name is accepted; the call returns
    the new identifier 1, not the failure signal -1, and the row is
    there. *)
Lemma createCustomer_accepts_empty_name :
  fst (call (createCustomer EmptyString "a@x.com" "555-0100") no_fault fresh_conn) = Ok 1 /\
  customers (committed (snd (call (createCustomer EmptyString "a@x.com" "555-0100")
                               no_fault fresh_conn))) !! 1 =
    Some (mkCustomerRow EmptyString "a@x.com" "555-0100").
Proof. split; reflexivity. Qed.

(** C9, amended: [createCustomer] does not look at the name; for every
    name, the empty one included, and with no storage fault, it inserts one
    row of [customers] with that name under the next identifier and
    returns that identifier. *)
Theorem createCustomer_spec (c : Conn) (name email phone : string) :
  idle c ->
  customers (committed c) !! next_customer_id c = None ->
  exists c',
    call (createCustomer name email phone) no_fault c = (Ok (next_customer_id c), c') /\
    idle c' /\
    customers (committed c') =
      <[next_customer_id c := mkCustomerRow name email phone]> (customers (committed c)) /\
    accounts (committed c') = accounts (committed c) /\
    transactions (committed c') = transactions (committed c).
Proof.
  intros Hc Hfree. rewrite (idle_inv c Hc).
  destruct c as [[cu ac tx] wk au nc na nt li]. simpl in Hfree.
  gw_all. eexists. split; [reflexivity|].
  cbn [committed customers accounts transactions]. auto using idle_mk.
Qed.

Lemma createCustomer_spec_witness :
  (idle scenario_conn /\
   customers (committed scenario_conn) !! next_customer_id scenario_conn = None) /\
  exists c',
    call (createCustomer EmptyString EmptyString EmptyString) no_fault scenario_conn =
      (Ok (next_customer_id scenario_conn), c') /\
    idle c' /\
    customers (committed c') =
      <[next_customer_id scenario_conn := mkCustomerRow EmptyString EmptyString EmptyString]>
        (customers (committed scenario_conn)) /\
    accounts (committed c') = accounts (committed scenario_conn) /\
    transactions (committed c') = transactions (committed scenario_conn).
Proof.
  split; [split; [exact scenario_idle | reflexivity]|].
  exact (createCustomer_spec scenario_conn EmptyString EmptyString EmptyString scenario_idle eq_refl).
Defined.

(** ** Interleaved withdrawals *)

(** A client left alone runs [withdraw]. *)
Lemma client_alone account_id amount srv :
  exists r srv',
    client_run account_id amount srv = (Returned r, srv') /\
    call (withdraw account_id amount) no_fault srv = (Ok r, srv').
Proof.
  destruct srv as [cm [cu ac tx] au nc na nt li].
  unfold client_run, client_step, withdraw_check, withdraw_unit.
  destruct (ac !! account_id) as [row|] eqn:Hrow; gw_all;
    do 2 eexists; split; reflexivity.
Qed.

(** One after the other, the two withdrawals of 100.00 end as they
    should: one succeeds, one is declined, and the balance is 0. *)
Example withdrawals_in_turn :
  let st := run_schedule 1 (cents 10000) [false; false; true; true] race_conn in
  fst (fst st) = Returned true /\ snd (fst st) = Returned false /\
  balance_of (committed (snd st)) 1 = Some 0.
Proof. vm_compute. repeat split. Qed.

(** C4, on the code: when both clients check the balance before either
    runs its unit, both withdrawals of 100.00 succeed, the balance ends at
    -100.00 and the log has two WITHDRAW records. *)
Theorem withdraw_race_overdraws :
  let st := run_schedule 1 (cents 10000) [false; true; false; true] race_conn in
  balance_of (committed race_conn) 1 = Some 10000 /\
  fst (fst st) = Returned true /\ snd (fst st) = Returned true /\
  balance_of (committed (snd st)) 1 = Some (-10000) /\
  map (fun r => (tr_account_id r, tr_type r, tr_amount r))
      (skipn (length (transactions (committed race_conn)))
             (transactions (committed (snd st)))) =
    [(1, WITHDRAW, 10000); (1, WITHDRAW, 10000)].
Proof. vm_compute. repeat split. Qed.

(** C2, on the code: a sequence of committed operations that ends with a
    negative balance.  Account 1 is created with balance zero and 100.00
    is deposited; two clients then withdraw 100.00 each, both checks
    running before either unit.  Every operation of the sequence is
    committed and reports success; the balance of the account is 0 at its
    creation, 100.00 after the deposit and 0 after the first withdrawal,
    and the second withdrawal commits a balance below zero. *)
Theorem race_commits_negative_balance :
  let created :=
    run_ops [(OpCreateCustomer "Alice" "a@x.com" "555-0100", no_fault);
             (OpCreateAccount 1 "SAVINGS", no_fault)] fresh_conn in
  let funded := run_op (OpDeposit 1 (cents 10000)) no_fault created in
  let first := run_schedule 1 (cents 10000) [false; true; false] funded in
  let second := system_step 1 (cents 10000) first true in
  balance_of (committed created) 1 = Some 0 /\
  balance_of (committed funded) 1 = Some 10000 /\
  (fst (fst first) = Returned true /\ balance_of (committed (snd first)) 1 = Some 0) /\
  (snd (fst second) = Returned true /\
   exists b, balance_of (committed (snd second)) 1 = Some b /\ b < 0).
Proof.
  vm_compute. repeat split. exists (-10000). split; reflexivity.
Qed.

Ltac gw_more :=
  cbv beta iota zeta delta
    [listCustomers getCustomer listAccountsByCustomer recentTransactions
     query_customer query_customers query_accounts_by_customer query_recent];
  gw_all.

(** ** Reading the directory *)

(** X1: [getAccount] never raises and never changes the connection; it
    hands back the row under the key, with [id] the key, when the query
    goes through and the row is there, and [id = -1] when the row is
    missing or the query fails. *)
Theorem getAccount_spec (c : Conn) (account_id : Z) (p : FaultPlan) :
  exists a,
    call (getAccount account_id) p c = (Ok a, c) /\
    match p, accounts (working c) !! account_id with
    | Some O, _ | _, None => id a = -1
    | _, Some row =>
        a = mkAccount account_id (ar_customer_id row) (ar_account_type row)
                      (ar_balance row)
    end.
Proof.
  destruct c as [cm [cu ac tx] au nc na nt li].
  destruct (ac !! account_id) as [row|] eqn:Hrow;
    destruct p as [[|k]|]; gw_all; cbn [working accounts];
    rewrite ?Hrow; eexists; split; reflexivity.
Qed.

(** X2: [getCustomer] never raises and never changes the connection; it
    hands back the row under the key when the query goes through and the
    row is there, and a struct with [id = -1] and empty strings otherwise. *)
Theorem getCustomer_spec (c : Conn) (customer_id : Z) (p : FaultPlan) :
  exists cu,
    call (getCustomer customer_id) p c = (Ok cu, c) /\
    match p, customers (working c) !! customer_id with
    | Some O, _ | _, None =>
        cu = mkCustomer (-1) EmptyString EmptyString EmptyString
    | _, Some row =>
        cu = mkCustomer customer_id (cr_name row) (cr_email row) (cr_phone row)
    end.
Proof.
  destruct c as [cm [cu ac tx] au nc na nt li].
  destruct (cu !! customer_id) as [row|] eqn:Hrow;
    destruct p as [[|k]|]; gw_more; cbn [working customers];
    rewrite ?Hrow; eexists; split; reflexivity.
Qed.

(** X3: [listCustomers] leaves the connection as it is; with no fault its
    result holds exactly the rows of [customers], each once: a struct is
    in the list if and only if its fields are the row under its [id], no
    [id] occurs twice, and there are as many structs as rows.  When the
    query fails the list is empty. *)
Theorem listCustomers_spec (c : Conn) :
  (exists l,
     call listCustomers no_fault c = (Ok l, c) /\
     (forall cu, cu ∈ l <->
        customers (working c) !! cust_id cu =
          Some (mkCustomerRow (cust_name cu) (cust_email cu) (cust_phone cu))) /\
     NoDup (cust_id <$> l) /\
     length l = size (customers (working c))) /\
  call listCustomers (fault_at 0) c = (Ok [], c).
Proof.
  destruct c as [cm [cu ac tx] au nc na nt li]. split; [|reflexivity].
  gw_more. cbn [working customers]. eexists. split; [reflexivity|].
  split; [|split].
  - intros x. rewrite list_elem_of_fmap. split.
    + intros ([k row] & -> & Hin). apply elem_of_map_to_list in Hin.
      destruct row; exact Hin.
    + intros Hx. exists (cust_id x, mkCustomerRow (cust_name x) (cust_email x) (cust_phone x)).
      split; [destruct x; reflexivity|]. apply elem_of_map_to_list. exact Hx.
  - rewrite <- list_fmap_compose.
    replace (cust_id ∘ customer_of) with (@fst Z CustomerRow) by reflexivity.
    apply NoDup_fst_map_to_list.
  - rewrite length_fmap. apply length_map_to_list.
Qed.

(** X4: [listAccountsByCustomer] leaves the connection as it is; with no
    fault its result holds exactly the accounts of that customer: a struct
    is in the list if and only if its fields are the row under its [id]
    and its [customer_id] is the one asked for, and no [id] occurs twice.
    When the query fails the list is empty. *)
Theorem listAccountsByCustomer_spec (c : Conn) (cid : Z) :
  (exists l,
     call (listAccountsByCustomer cid) no_fault c = (Ok l, c) /\
     (forall a, a ∈ l <->
        customer_id a = cid /\
        accounts (working c) !! id a =
          Some (mkAccountRow (customer_id a) (type a) (balance a))) /\
     NoDup (id <$> l)) /\
  call (listAccountsByCustomer cid) (fault_at 0) c = (Ok [], c).
Proof.
  destruct c as [cm [cu ac tx] au nc na nt li]. split; [|reflexivity].
  gw_more. cbn [working accounts]. eexists. split; [reflexivity|]. split.
  - intros x. rewrite list_elem_of_fmap. split.
    + intros ([k row] & -> & Hin). apply list_elem_of_filter in Hin as [Hc Hin].
      apply elem_of_map_to_list in Hin. destruct row; simpl in *. auto.
    + intros [Hc Hx].
      exists (id x, mkAccountRow (customer_id x) (type x) (balance x)).
      split; [destruct x; reflexivity|]. apply list_elem_of_filter.
      split; [exact Hc|]. apply elem_of_map_to_list. exact Hx.
  - rewrite <- list_fmap_compose.
    replace (id ∘ account_of) with (@fst Z AccountRow) by reflexivity.
    eapply NoDup_fmap_fst.
    + intros k r1 r2 [_ H1]%list_elem_of_filter [_ H2]%list_elem_of_filter.
      apply elem_of_map_to_list in H1, H2. congruence.
    + apply NoDup_filter, NoDup_map_to_list.
Qed.

(** ** Reading the log *)

Lemma newest_first_perm l : newest_first l ≡ₚ l.
Proof. unfold newest_first. symmetry. apply Permutation_rev. Qed.

Lemma recent_rows (by_created_at : list TransactionRecord -> list TransactionRecord)
    (txs : list TransactionRecord) (account_id : Z) (n : nat) :
  (forall l, by_created_at l ≡ₚ l) ->
  let rows := take n (by_created_at
                        (filter (fun r => tr_account_id r = account_id) txs)) in
  (length rows <= n)%nat /\
  forall r, r ∈ rows -> r ∈ txs /\ tr_account_id r = account_id.
Proof.
  intros Hperm rows. split.
  - unfold rows. rewrite length_take. lia.
  - intros r Hr. apply subseteq_take in Hr. rewrite (Hperm _) in Hr.
    apply list_elem_of_filter in Hr as [? ?]. auto.
Qed.

(** X5: [recentTransactions] with a limit that is not negative, whatever
    order the store gives equal timestamps (and whatever it makes of a
    negative limit): it never raises and leaves the connection as it is;
    its result has at most [limit] records, each a record of the log on
    the account asked for; with no fault it has exactly [min limit n]
    records, [n] being the number of records of the account, and when
    [n <= limit] it is the whole history of the account. *)
Theorem recentTransactions_spec
    (by_created_at : list TransactionRecord -> list TransactionRecord)
    (on_negative_limit : list TransactionRecord -> Res (list TransactionRecord))
    (c : Conn) (account_id limit : Z) (p : FaultPlan) :
  (forall l, by_created_at l ≡ₚ l) ->
  0 <= limit ->
  let history := filter (fun r => tr_account_id r = account_id)
                        (transactions (working c)) in
  exists l,
    call (recentTransactions by_created_at on_negative_limit account_id limit) p c =
      (Ok l, c) /\
    (length l <= Z.to_nat limit)%nat /\
    (forall r, r ∈ l -> r ∈ transactions (working c) /\ tr_account_id r = account_id) /\
    (p = no_fault ->
       length l = Nat.min (Z.to_nat limit) (length history) /\
       ((length history <= Z.to_nat limit)%nat -> l ≡ₚ history)).
Proof.
  intros Hperm Hlimit history. subst history.
  destruct c as [cm [cu ac tx] au nc na nt li].
  set (h := filter (fun r => tr_account_id r = account_id) tx).
  assert (Hsub : forall r, r ∈ take (Z.to_nat limit) (by_created_at h) ->
                   r ∈ tx /\ tr_account_id r = account_id).
  { intros r Hr. apply subseteq_take in Hr. rewrite (Hperm h) in Hr.
    apply list_elem_of_filter in Hr as [? ?]. auto. }
  destruct p as [[|k]|]; gw_more; cbn [working transactions]; fold h;
    eexists; (split; [reflexivity|]).
  all: match goal with
       | |- (length [] <= _)%nat /\ _ =>
           split; [simpl; lia|]; split; [intros r Hr; inversion Hr|];
           intros Hp; discriminate
       | |- _ =>
           split; [rewrite length_take; lia|]; split; [exact Hsub|];
           intros Hp; try discriminate
       end.
  rewrite length_take, (Permutation_length (Hperm h)). split; [reflexivity|].
  intros Hle. rewrite take_ge by (rewrite (Permutation_length (Hperm h)); exact Hle).
  apply Hperm.
Qed.

Lemma recentTransactions_spec_witness :
  ((forall l, newest_first l ≡ₚ l) /\ 0 <= 2) /\
  exists l,
    call (recentTransactions newest_first refuse_negative 1 2) no_fault
         (run_ops scenario_ops fresh_conn) = (Ok l, run_ops scenario_ops fresh_conn) /\
    (length l <= Z.to_nat 2)%nat /\
    (forall r, r ∈ l ->
       r ∈ transactions (working (run_ops scenario_ops fresh_conn)) /\
       tr_account_id r = 1) /\
    (no_fault = no_fault ->
       length l =
         Nat.min (Z.to_nat 2)
           (length (filter (fun r => tr_account_id r = 1)
                      (transactions (working (run_ops scenario_ops fresh_conn))))) /\
       ((length (filter (fun r => tr_account_id r = 1%Z)
                   (transactions (working (run_ops scenario_ops fresh_conn))))
         <= Z.to_nat 2)%nat ->
        l ≡ₚ filter (fun r => tr_account_id r = 1)
               (transactions (working (run_ops scenario_ops fresh_conn))))).
Proof.
  assert (H : 0 <= 2) by lia.
  split; [split; [exact newest_first_perm | exact H]|].
  exact (recentTransactions_spec newest_first refuse_negative
           (run_ops scenario_ops fresh_conn) 1 2 no_fault newest_first_perm H).
Defined.

(** The scenario's account 1, asked for its two most recent records. *)
Example recent_of_scenario :
  (fun r => (tr_type r, tr_amount r)) <$>
    match fst (call (recentTransactions newest_first refuse_negative 1 2) no_fault
                 (run_ops scenario_ops fresh_conn)) with
    | Ok l => l
    | Throw => []
    end = [(TRANSFER, 1000); (WITHDRAW, 2000)].
Proof. reflexivity. Qed.

(** X6: [recentTransactions] with a limit that is not negative gives the
    empty list, and no error, for an account without a record in the log
    (so for an account that does not exist), for a limit of zero, and when
    the query fails. *)
Theorem recentTransactions_empty
    (by_created_at : list TransactionRecord -> list TransactionRecord)
    (on_negative_limit : list TransactionRecord -> Res (list TransactionRecord))
    (c : Conn) (account_id limit : Z) (p : FaultPlan) :
  (forall l, by_created_at l ≡ₚ l) ->
  0 <= limit ->
  (forall r, r ∈ transactions (working c) -> tr_account_id r <> account_id) \/
  limit = 0 \/ p = fault_at 0 ->
  call (recentTransactions by_created_at on_negative_limit account_id limit) p c =
    (Ok [], c).
Proof.
  intros Hperm Hlimit Hcase.
  destruct c as [cm [cu ac tx] au nc na nt li]. cbn [working transactions] in Hcase.
  pose proof (recent_rows by_created_at tx account_id (Z.to_nat limit) Hperm)
    as [Hlen Hin].
  destruct p as [[|k]|]; gw_more; cbn [working transactions];
    try reflexivity; do 2 f_equal;
    (destruct (take (Z.to_nat limit) _) as [|r l]; [reflexivity|]; exfalso;
     destruct Hcase as [Hno|[Hz|Hp]];
     [ destruct (Hin r) as [Hr Ha]; [left|]; exact (Hno r Hr Ha)
     | subst limit; simpl in Hlen; lia
     | discriminate ]).
Qed.

Lemma recentTransactions_empty_witness :
  ((forall l, newest_first l ≡ₚ l) /\ 0 <= 10 /\
   ((forall r, r ∈ transactions (working scenario_conn) -> tr_account_id r <> 2) \/
    10 = 0 \/ no_fault = fault_at 0)) /\
  call (recentTransactions newest_first refuse_negative 2 10) no_fault scenario_conn =
    (Ok [], scenario_conn).
Proof.
  assert (Hl : 0 <= 10) by lia.
  assert (H : (forall r, r ∈ transactions (working scenario_conn) ->
                 tr_account_id r <> 2) \/ 10 = 0 \/ no_fault = fault_at 0).
  { left. intros r Hr. apply list_elem_of_singleton in Hr. subst r. discriminate. }
  split; [split; [exact newest_first_perm | split; [exact Hl | exact H]]|].
  exact (recentTransactions_empty newest_first refuse_negative scenario_conn 2 10
           no_fault newest_first_perm Hl H).
Defined.

(** ** Faults in [deposit] and [withdraw] *)

(** X7: A [deposit] hit by a storage fault on any request up to and
    including its commit reports failure and leaves the tables, committed
    and as the connection sees them, exactly as before the call. *)
Theorem deposit_fault_rolls_back (c : Conn) (account_id : Z) (amount : Q) (k : nat) :
  idle c -> (k < deposit_last_request)%nat ->
  exists c',
    call (deposit account_id amount) (fault_at k) c = (Ok false, c') /\
    committed c' = committed c /\ working c' = committed c.
Proof.
  intros Hc Hk. rewrite (idle_inv c Hc).
  destruct c as [[cu ac tx] wk au nc na nt li]. unfold deposit_last_request in Hk.
  destruct (ac !! account_id) as [row|] eqn:Hrow;
  destruct k as [|[|[|[|k]]]]; try lia; gw_all;
  eexists; (split; [reflexivity|]); cbn [committed working]; auto.
Qed.

Lemma deposit_fault_rolls_back_witness :
  (idle scenario_conn /\ (2 < deposit_last_request)%nat) /\
  exists c',
    call (deposit 1 (cents 2500)) (fault_at 2) scenario_conn = (Ok false, c') /\
    committed c' = committed scenario_conn /\ working c' = committed scenario_conn.
Proof.
  assert (H : (2 < deposit_last_request)%nat) by (unfold deposit_last_request; lia).
  split; [split; [exact scenario_idle | exact H]|].
  exact (deposit_fault_rolls_back scenario_conn 1 (cents 2500) 2 scenario_idle H).
Defined.

(** X8: A [withdraw] hit by a storage fault on any request up to and
    including its commit reports failure and leaves the connection idle
    with the tables exactly as before the call. *)
Theorem withdraw_fault_rolls_back (c : Conn) (account_id : Z) (amount : Q) (k : nat) :
  idle c -> (k < withdraw_last_request)%nat ->
  exists c',
    call (withdraw account_id amount) (fault_at k) c = (Ok false, c') /\
    idle c' /\ committed c' = committed c.
Proof.
  intros Hc Hk. rewrite (idle_inv c Hc).
  destruct c as [[cu ac tx] wk au nc na nt li]. unfold withdraw_last_request in Hk.
  destruct (ac !! account_id) as [row|] eqn:Hrow;
  destruct k as [|[|[|[|[|k]]]]]; try lia; gw_all;
  eexists; (split; [reflexivity|]); cbn [committed working];
  (split; [apply idle_mk|]); auto.
Qed.

Lemma withdraw_fault_rolls_back_witness :
  (idle scenario_conn /\ (3 < withdraw_last_request)%nat) /\
  exists c',
    call (withdraw 1 (cents 2000)) (fault_at 3) scenario_conn = (Ok false, c') /\
    idle c' /\ committed c' = committed scenario_conn.
Proof.
  assert (H : (3 < withdraw_last_request)%nat) by (unfold withdraw_last_request; lia).
  split; [split; [exact scenario_idle | exact H]|].
  exact (withdraw_fault_rolls_back scenario_conn 1 (cents 2000) 3 scenario_idle H).
Defined.

(** X9: A result of [false] does not mean that nothing happened: when the
    fault hits the request after the commit, the last
    [setAutoCommit(true)], each of [deposit], [withdraw] and [transfer]
    reports failure although its whole unit is committed. *)
Theorem failure_after_commit (c : Conn) (a b : Z) (amount : Q) (row : AccountRow) :
  idle c -> 0 <= a -> 0 <= b -> (0 < amount)%Q ->
  accounts (committed c) !! a = Some row ->
  is_Some (accounts (committed c) !! b) ->
  (amount <= cents (ar_balance row))%Q ->
  (exists c',
     call (deposit a amount) (fault_at deposit_last_request) c = (Ok false, c') /\
     committed c' = deposit_post (committed c) (next_transaction_id c) a amount) /\
  (exists c',
     call (withdraw a amount) (fault_at withdraw_last_request) c = (Ok false, c') /\
     committed c' = withdraw_post (committed c) (next_transaction_id c) a amount) /\
  (exists c',
     call (transfer a b amount) (fault_at transfer_last_request) c = (Ok false, c') /\
     committed c' = transfer_post (committed c) (next_transaction_id c) a b amount).
Proof.
  intros Hc Ha Hb Hpos Hrow Hto Hle.
  apply is_positive_Qlt in Hpos. apply covers_Qle in Hle. split; [|split].
  - rewrite (idle_inv c Hc).
    destruct c as [[cu ac tx] wk au nc na nt li]. simpl in Hrow.
    unfold deposit_post, deposit_last_request. gw_all.
    eexists; split; reflexivity.
  - rewrite (idle_inv c Hc).
    destruct c as [[cu ac tx] wk au nc na nt li]. simpl in Hrow.
    unfold withdraw_post, withdraw_last_request. gw_all.
    eexists; split; reflexivity.
  - exact (transfer_fault_after_commit c a b amount row Hc Ha Hb Hpos Hrow Hto Hle).
Qed.

Lemma failure_after_commit_witness :
  (idle scenario_conn /\ 0 <= 1 /\ 0 <= 2 /\ (0 < cents 1000)%Q /\
   accounts (committed scenario_conn) !! 1 = Some savings_row /\
   is_Some (accounts (committed scenario_conn) !! 2) /\
   (cents 1000 <= cents (ar_balance savings_row))%Q) /\
  (exists c',
     call (deposit 1 (cents 1000)) (fault_at deposit_last_request) scenario_conn = (Ok false, c') /\
     committed c' = deposit_post (committed scenario_conn)
                      (next_transaction_id scenario_conn) 1 (cents 1000)) /\
  (exists c',
     call (withdraw 1 (cents 1000)) (fault_at withdraw_last_request) scenario_conn = (Ok false, c') /\
     committed c' = withdraw_post (committed scenario_conn)
                      (next_transaction_id scenario_conn) 1 (cents 1000)) /\
  (exists c',
     call (transfer 1 2 (cents 1000)) (fault_at transfer_last_request) scenario_conn = (Ok false, c') /\
     committed c' = transfer_post (committed scenario_conn)
                      (next_transaction_id scenario_conn) 1 2 (cents 1000)).
Proof.
  assert (H1 : 0 <= 1) by lia. assert (H2 : 0 <= 2) by lia.
  assert (H3 : (0 < cents 1000)%Q) by reflexivity.
  assert (H4 : is_Some (accounts (committed scenario_conn) !! 2))
    by (exists current_row; reflexivity).
  assert (H5 : (cents 1000 <= cents (ar_balance savings_row))%Q) by discriminate.
  split.
  - split; [exact scenario_idle|]. split; [exact H1|]. split; [exact H2|].
    split; [exact H3|]. split; [reflexivity|]. split; [exact H4 | exact H5].
  - exact (failure_after_commit scenario_conn 1 2 (cents 1000) savings_row
             scenario_idle H1 H2 H3 eq_refl H4 H5).
Defined.

(** X10: [transfer] rejects an amount that is not positive before any
    request to the store, and declines, with the connection (every
    balance and the log) unchanged and under every fault plan, when the
    source or the destination does not exist or the source holds less
    than the amount. *)
Theorem transfer_declined_unchanged (c : Conn) (a b : Z) (amount : Q) :
  ((amount <= 0)%Q -> rejected_untouched (transfer a b amount) c) /\
  (not_found c a \/ not_found c b \/ insufficient_funds c a amount ->
   declined_unchanged (transfer a b amount) c).
Proof.
  split.
  - intros Hle p. apply transfer_rejects, Hle.
  - intros H p. apply transfer_declines, H.
Qed.

Lemma transfer_declined_unchanged_witness :
  rejected_untouched (transfer 1 2 0) scenario_conn /\
  declined_unchanged (transfer 1 7 (cents 1000)) scenario_conn /\
  declined_unchanged (transfer 1 2 (50001 # 10)) scenario_conn.
Proof.
  split; [apply (proj1 (transfer_declined_unchanged scenario_conn 1 2 0)); discriminate|].
  split.
  - apply (proj2 (transfer_declined_unchanged scenario_conn 1 7 (cents 1000))).
    right. left. reflexivity.
  - apply (proj2 (transfer_declined_unchanged scenario_conn 1 2 (50001 # 10))).
    right. right. exists savings_row. split; reflexivity.
Defined.

(** ** Composition and conservation *)

(** X11: A deposit followed by a withdrawal of the same amount, a whole
    number of hundredths, both succeed (with no storage fault) and put
    every balance back where it was; the log keeps both, a DEPOSIT then a
    WITHDRAW. *)
Theorem deposit_then_withdraw (c : Conn) (account_id amount : Z) (row : AccountRow) :
  idle c -> positive_ids (committed c) ->
  accounts (committed c) !! account_id = Some row ->
  0 <= ar_balance row -> 0 < amount ->
  exists c1 c2,
    call (deposit account_id (cents amount)) no_fault c = (Ok true, c1) /\
    call (withdraw account_id (cents amount)) no_fault c1 = (Ok true, c2) /\
    idle c2 /\
    (forall j, balance_of (committed c2) j = balance_of (committed c) j) /\
    transactions (committed c2) =
      transactions (committed c) ++
        [mkTransactionRecord (next_transaction_id c) account_id DEPOSIT amount
           "Deposit via app";
         mkTransactionRecord (next_transaction_id c + 1) account_id WITHDRAW amount
           "Withdrawal via app"].
Proof.
  intros Hc Hids Hrow Hbal Hpos.
  pose proof (positive_ids_lookup _ _ _ Hids Hrow) as Hid.
  do 2 eexists. split.
  { apply deposit_ok; [exact Hc | apply is_positive_cents, Hpos | eauto]. }
  split.
  { apply (withdraw_ok account_id (cents amount) _ (add_balance (cents amount) row));
      [apply idle_mk | lia | apply is_positive_cents, Hpos | |].
    - cbn [committed deposit_post accounts].
      rewrite lookup_alter_eq, Hrow. reflexivity.
    - apply covers_cents. whole. cbn [ar_balance]. lia. }
  cbn [committed next_transaction_id]. split; [apply idle_mk|]. split.
  - intros j. unfold balance_of, withdraw_post, deposit_post; cbn [accounts].
    rewrite !lookup_alter. destruct (decide (account_id = j)) as [->|Hne]; [|reflexivity].
    rewrite Hrow, decide_True by reflexivity.
    cbn [fmap option_fmap option_map]. whole. cbn [ar_balance].
    f_equal. lia.
  - unfold withdraw_post, deposit_post; cbn [transactions]. whole.
    rewrite <- app_assoc. reflexivity.
Qed.

Lemma deposit_then_withdraw_witness :
  (idle scenario_conn /\ positive_ids (committed scenario_conn) /\
   accounts (committed scenario_conn) !! 1 = Some savings_row /\
   0 <= ar_balance savings_row /\ 0 < 700) /\
  exists c1 c2,
    call (deposit 1 (cents 700)) no_fault scenario_conn = (Ok true, c1) /\
    call (withdraw 1 (cents 700)) no_fault c1 = (Ok true, c2) /\
    idle c2 /\
    (forall j, balance_of (committed c2) j = balance_of (committed scenario_conn) j) /\
    transactions (committed c2) =
      transactions (committed scenario_conn) ++
        [mkTransactionRecord (next_transaction_id scenario_conn) 1 DEPOSIT 700
           "Deposit via app";
         mkTransactionRecord (next_transaction_id scenario_conn + 1) 1 WITHDRAW 700
           "Withdrawal via app"].
Proof.
  assert (H1 : 0 <= ar_balance savings_row) by (simpl; lia).
  assert (H2 : 0 < 700) by lia.
  split.
  - split; [exact scenario_idle|]. split; [exact scenario_positive|].
    split; [reflexivity|]. split; [exact H1 | exact H2].
  - exact (deposit_then_withdraw scenario_conn 1 700 savings_row
             scenario_idle scenario_positive eq_refl H1 H2).
Defined.

Lemma total_fold_comm (j1 j2 : Z) (z1 z2 : AccountRow) (y : Z) :
  ar_balance z1 + (ar_balance z2 + y) = ar_balance z2 + (ar_balance z1 + y).
Proof. lia. Qed.

Lemma total_balance_alter t t' k row f :
  accounts t !! k = Some row ->
  accounts t' = alter f k (accounts t) ->
  total_balance t' = total_balance t + (ar_balance (f row) - ar_balance row).
Proof.
  intros Hrow Heq. unfold total_balance. rewrite Heq.
  assert (Hk : alter f k (accounts t) !! k = Some (f row))
    by (rewrite lookup_alter_eq, Hrow; reflexivity).
  rewrite (map_fold_delete_L _ 0 k row (accounts t)
             (fun j1 j2 z1 z2 y _ _ _ => total_fold_comm j1 j2 z1 z2 y) Hrow).
  rewrite (map_fold_delete_L _ 0 k (f row) _
             (fun j1 j2 z1 z2 y _ _ _ => total_fold_comm j1 j2 z1 z2 y) Hk).
  rewrite delete_alter, decide_True by reflexivity. lia.
Qed.

Lemma total_balance_insert t t' k cid ty :
  accounts t !! k = None ->
  accounts t' = <[k := mkAccountRow cid ty 0]> (accounts t) ->
  total_balance t' = total_balance t.
Proof.
  intros Hfree Heq. unfold total_balance. rewrite Heq.
  rewrite (map_fold_insert_L _ 0 k _ (accounts t)
             (fun j1 j2 z1 z2 y _ _ _ => total_fold_comm j1 j2 z1 z2 y) Hfree).
  simpl. lia.
Qed.

Lemma total_signed_app l1 l2 :
  total_signed (l1 ++ l2) = total_signed l1 + total_signed l2.
Proof. induction l1 as [|r l1 IH]; simpl; [reflexivity | rewrite IH; lia]. Qed.

Lemma total_deposit_post t n a amount :
  is_Some (accounts t !! a) ->
  total_balance (deposit_post t n a (cents amount)) = total_balance t + amount.
Proof.
  intros [row Hrow].
  rewrite (total_balance_alter t (deposit_post t n a (cents amount)) a row _ Hrow eq_refl).
  whole. cbn [ar_balance]. lia.
Qed.

Lemma total_withdraw_post t n a amount :
  is_Some (accounts t !! a) ->
  total_balance (withdraw_post t n a (cents amount)) = total_balance t - amount.
Proof.
  intros [row Hrow].
  rewrite (total_balance_alter t (withdraw_post t n a (cents amount)) a row _ Hrow eq_refl).
  whole. cbn [ar_balance]. lia.
Qed.

Lemma total_transfer_post t n a b amount :
  is_Some (accounts t !! a) -> is_Some (accounts t !! b) ->
  total_balance (transfer_post t n a b (cents amount)) = total_balance t.
Proof.
  intros [ra Ha] [rb Hb].
  set (t1 := mkTables (customers t)
               (alter (add_balance (- cents amount)) a (accounts t)) (transactions t)).
  assert (Hb1 : is_Some (accounts t1 !! b)).
  { unfold t1; cbn [accounts]. rewrite lookup_alter.
    destruct (decide (a = b)) as [->|]; [rewrite Hb|rewrite Hb]; eauto. }
  destruct Hb1 as [rb1 Hb1].
  rewrite (total_balance_alter t1 (transfer_post t n a b (cents amount)) b rb1 _ Hb1 eq_refl).
  rewrite (total_balance_alter t t1 a ra _ Ha eq_refl).
  whole. cbn [ar_balance]. lia.
Qed.



(** The books balance: the total of the balances is the total of the
    signed amounts of the log. *)
Lemma books_balance_kept o p c :
  let P := fun t => total_balance t = total_signed (transactions t) in
  whole_cents o ->
  P (committed c) /\ P (working c) ->
  P (committed (run_op o p c)) /\ P (working (run_op o p c)).
Proof.
  intros P Hw [Hcm Hwk].
  destruct o as [n e ph|cid ty|a amt|a amt|a b amt]; cbn [run_op whole_cents] in *.
  - destruct (createCustomer_cases n e ph c p) as (r & c' & -> & Hl).
    apply (lands_keeps P _ _ _ _ Hcm Hwk Hl). intros _. exact Hwk.
  - destruct (createAccount_cases cid ty c p) as (r & c' & -> & Hl).
    apply (lands_keeps P _ _ _ _ Hcm Hwk Hl). intros Hfree. unfold P.
    rewrite (total_balance_insert (working c)
               (account_post (working c) (next_account_id c) cid ty) _ cid ty
               Hfree eq_refl). exact Hwk.
  - destruct Hw as [k ->].
    destruct (deposit_cases a (cents k) c p) as (r & c' & -> & Hl).
    apply (lands_keeps P _ _ _ _ Hcm Hwk Hl). intros [Hpos Hex]. unfold P.
    rewrite total_deposit_post by exact Hex. cbn [deposit_post transactions]. whole.
    rewrite total_signed_app, <- Hwk. unfold total_signed, signed_amount. simpl. lia.
  - destruct Hw as [k ->].
    destruct (withdraw_cases a (cents k) c p) as (r & c' & -> & Hl).
    apply (lands_keeps P _ _ _ _ Hcm Hwk Hl). intros (Hpos & row & Hrow & Hle).
    unfold P. rewrite total_withdraw_post by eauto. cbn [withdraw_post transactions].
    whole.
    rewrite total_signed_app, <- Hwk. unfold total_signed, signed_amount. simpl. lia.
  - destruct Hw as [k ->].
    destruct (transfer_cases a b (cents k) c p) as (r & c' & -> & Hl).
    apply (lands_keeps P _ _ _ _ Hcm Hwk Hl). intros (Hpos & Hto & row & Hrow & Hle).
    unfold P. rewrite total_transfer_post by eauto. cbn [transfer_post transactions].
    whole.
    rewrite total_signed_app, <- Hwk. unfold total_signed, signed_amount. simpl. lia.
Qed.

(** X13: The books balance in every session on one connection that starts
    on the empty database and whose amounts are whole numbers of
    hundredths, whatever the calls and whichever request of each call a
    storage fault hits: the total of all committed balances is the total
    of the signed amounts of the committed log. *)
Theorem books_balance (ops : list (Op * FaultPlan)) :
  Forall (fun op => whole_cents (fst op)) ops ->
  total_balance (committed (run_ops ops fresh_conn)) =
    total_signed (transactions (committed (run_ops ops fresh_conn))).
Proof.
  enough (H : forall l c,
            Forall (fun op => whole_cents (fst op)) l ->
            (total_balance (committed c) = total_signed (transactions (committed c)) /\
             total_balance (working c) = total_signed (transactions (working c))) ->
            total_balance (committed (run_ops l c)) =
              total_signed (transactions (committed (run_ops l c)))).
  { intros Hw. apply H; [exact Hw | split; reflexivity]. }
  induction l as [|[o p] l IH]; intros c Hw Hc; [apply Hc|].
  apply Forall_cons in Hw as [Ho Hw].
  cbn [run_ops fold_left fst snd]. apply IH; [exact Hw|].
  exact (books_balance_kept o p c Ho Hc).
Qed.

Lemma books_balance_witness :
  Forall (fun op => whole_cents (fst op)) scenario_ops /\
  total_balance (committed (run_ops scenario_ops fresh_conn)) =
    total_signed (transactions (committed (run_ops scenario_ops fresh_conn))).
Proof.
  split; [exact scenario_whole|].
  exact (books_balance scenario_ops scenario_whole).
Defined.

Example books_of_scenario :
  total_balance (committed (run_ops scenario_ops fresh_conn)) = 3000.
Proof. reflexivity. Qed.

(** ** Creating customers and accounts *)

(** X14: [createAccount] for an existing customer (with no storage fault,
    the next key being free) returns the new identifier and leaves an
    account of that customer and type with balance zero, which
    [getAccount] then hands back; the other accounts and the log are
    untouched. *)
Theorem createAccount_then_getAccount (c : Conn) (cid : Z) (ty : string) :
  idle c ->
  is_Some (customers (committed c) !! cid) ->
  accounts (committed c) !! next_account_id c = None ->
  exists c',
    call (createAccount cid ty) no_fault c = (Ok (next_account_id c), c') /\
    idle c' /\
    call (getAccount (next_account_id c)) no_fault c' =
      (Ok (mkAccount (next_account_id c) cid ty 0), c') /\
    (forall j, j <> next_account_id c ->
       accounts (committed c') !! j = accounts (committed c) !! j) /\
    transactions (committed c') = transactions (committed c).
Proof.
  intros Hc [crow Hcu] Hfree. rewrite (idle_inv c Hc).
  destruct c as [[cu ac tx] wk au nc na nt li]. simpl in Hcu, Hfree.
  gw_all. eexists. split; [reflexivity|]. split; [apply idle_mk|]. split.
  - gw_all. rewrite lookup_insert_eq. reflexivity.
  - cbn [committed accounts transactions]. split; [|reflexivity].
    intros j Hj. rewrite lookup_insert_ne by congruence. reflexivity.
Qed.

Lemma createAccount_then_getAccount_witness :
  (idle scenario_conn /\
   is_Some (customers (committed scenario_conn) !! 1) /\
   accounts (committed scenario_conn) !! next_account_id scenario_conn = None) /\
  exists c',
    call (createAccount 1 "SAVINGS") no_fault scenario_conn =
      (Ok (next_account_id scenario_conn), c') /\
    idle c' /\
    call (getAccount (next_account_id scenario_conn)) no_fault c' =
      (Ok (mkAccount (next_account_id scenario_conn) 1 "SAVINGS" 0), c') /\
    (forall j, j <> next_account_id scenario_conn ->
       accounts (committed c') !! j = accounts (committed scenario_conn) !! j) /\
    transactions (committed c') = transactions (committed scenario_conn).
Proof.
  assert (H : is_Some (customers (committed scenario_conn) !! 1))
    by (eexists; reflexivity).
  split; [split; [exact scenario_idle|]; split; [exact H | reflexivity]|].
  exact (createAccount_then_getAccount scenario_conn 1 "SAVINGS" scenario_idle H eq_refl).
Defined.

(** X15: [createAccount] for a customer that does not exist returns the
    failure signal -1 and leaves the connection as it was, under every
    fault plan: the foreign key of [accounts] rejects the row. *)
Theorem createAccount_unknown_customer (c : Conn) (cid : Z) (ty : string) (p : FaultPlan) :
  customers (working c) !! cid = None ->
  call (createAccount cid ty) p c = (Ok (-1), c).
Proof.
  destruct c as [cm [cu ac tx] au nc na nt li]. cbn [working customers].
  intros Hcu. destruct p as [[|[|k]]|]; gw_all; reflexivity.
Qed.

Lemma createAccount_unknown_customer_witness :
  customers (working scenario_conn) !! 9 = None /\
  call (createAccount 9 "SAVINGS") no_fault scenario_conn = (Ok (-1), scenario_conn).
Proof.
  split; [reflexivity|].
  exact (createAccount_unknown_customer scenario_conn 9 "SAVINGS" no_fault eq_refl).
Defined.

(** X16: What [createCustomer] stores, [getCustomer] and [listCustomers]
    give back: after a [createCustomer] without fault, [getCustomer] of
    the returned identifier is the struct with that identifier and the
    name, email and phone given, and [listCustomers] contains it. *)
Theorem createCustomer_then_getCustomer (c : Conn) (name email phone : string) :
  idle c ->
  customers (committed c) !! next_customer_id c = None ->
  exists c' l,
    call (createCustomer name email phone) no_fault c = (Ok (next_customer_id c), c') /\
    call (getCustomer (next_customer_id c)) no_fault c' =
      (Ok (mkCustomer (next_customer_id c) name email phone), c') /\
    call listCustomers no_fault c' = (Ok l, c') /\
    mkCustomer (next_customer_id c) name email phone ∈ l.
Proof.
  intros Hc Hfree. rewrite (idle_inv c Hc).
  destruct c as [[cu ac tx] wk au nc na nt li]. simpl in Hfree.
  gw_all. do 2 eexists. split; [reflexivity|]. split.
  - gw_more. rewrite lookup_insert_eq. reflexivity.
  - gw_more. split; [reflexivity|]. cbn [working customers].
    apply list_elem_of_fmap.
    exists (nc, mkCustomerRow name email phone). split; [reflexivity|].
    apply elem_of_map_to_list, lookup_insert_eq.
Qed.

Lemma createCustomer_then_getCustomer_witness :
  (idle scenario_conn /\
   customers (committed scenario_conn) !! next_customer_id scenario_conn = None) /\
  exists c' l,
    call (createCustomer "Bob" "b@x.com" "555-0101") no_fault scenario_conn =
      (Ok (next_customer_id scenario_conn), c') /\
    call (getCustomer (next_customer_id scenario_conn)) no_fault c' =
      (Ok (mkCustomer (next_customer_id scenario_conn) "Bob" "b@x.com" "555-0101"), c') /\
    call listCustomers no_fault c' = (Ok l, c') /\
    mkCustomer (next_customer_id scenario_conn) "Bob" "b@x.com" "555-0101" ∈ l.
Proof.
  split; [split; [exact scenario_idle | reflexivity]|].
  exact (createCustomer_then_getCustomer scenario_conn "Bob" "b@x.com" "555-0101"
           scenario_idle eq_refl).
Defined.

(** X17: The failure signal of [createCustomer] and of [createAccount]
    does not mean that no row was created: when the fault hits the read of
    the new identifier, after the insert, the call returns -1 although the
    row is committed under the next key. *)
Theorem create_failure_after_insert (c : Conn) (name email phone : string)
    (cid : Z) (ty : string) :
  idle c ->
  customers (committed c) !! next_customer_id c = None ->
  accounts (committed c) !! next_account_id c = None ->
  is_Some (customers (committed c) !! cid) ->
  (exists c',
     call (createCustomer name email phone) (fault_at 1) c = (Ok (-1), c') /\
     customers (committed c') !! next_customer_id c =
       Some (mkCustomerRow name email phone)) /\
  (exists c',
     call (createAccount cid ty) (fault_at 1) c = (Ok (-1), c') /\
     accounts (committed c') !! next_account_id c = Some (mkAccountRow cid ty 0)).
Proof.
  intros Hc Hfc Hfa [crow Hcu]. rewrite (idle_inv c Hc).
  destruct c as [[cu ac tx] wk au nc na nt li]. simpl in Hfc, Hfa, Hcu.
  split; gw_all; eexists; (split; [reflexivity|]);
    cbn [committed customers accounts]; apply lookup_insert_eq.
Qed.

Lemma create_failure_after_insert_witness :
  (idle scenario_conn /\
   customers (committed scenario_conn) !! next_customer_id scenario_conn = None /\
   accounts (committed scenario_conn) !! next_account_id scenario_conn = None /\
   is_Some (customers (committed scenario_conn) !! 1)) /\
  (exists c',
     call (createCustomer "Bob" "b@x.com" "555-0101") (fault_at 1) scenario_conn =
       (Ok (-1), c') /\
     customers (committed c') !! next_customer_id scenario_conn =
       Some (mkCustomerRow "Bob" "b@x.com" "555-0101")) /\
  (exists c',
     call (createAccount 1 "CURRENT") (fault_at 1) scenario_conn = (Ok (-1), c') /\
     accounts (committed c') !! next_account_id scenario_conn =
       Some (mkAccountRow 1 "CURRENT" 0)).
Proof.
  assert (H : is_Some (customers (committed scenario_conn) !! 1))
    by (eexists; reflexivity).
  split.
  - split; [exact scenario_idle|]. split; [reflexivity|]. split; [reflexivity | exact H].
  - exact (create_failure_after_insert scenario_conn "Bob" "b@x.com" "555-0101"
             1 "CURRENT" scenario_idle eq_refl eq_refl H).
Defined.

(** ** Properties kept by every request are kept by every call *)

Lemma keeps_ret I {A} (a : A) : keeps I (ret a).
Proof. intros c p H. exact H. Qed.

Lemma keeps_bind I {A B} (m : Gw A) (k : A -> Gw B) :
  keeps I m -> (forall a, keeps I (k a)) -> keeps I (bind m k).
Proof.
  intros Hm Hk c p H. unfold bind. specialize (Hm c p H).
  destruct (m c p) as [[[a|] c'] p']; simpl in *; [apply Hk, Hm | exact Hm].
Qed.

Lemma keeps_try_catch I {A} (body handler : Gw A) :
  keeps I body -> keeps I handler -> keeps I (try_catch body handler).
Proof.
  intros Hb Hh c p H. unfold try_catch. specialize (Hb c p H).
  destruct (body c p) as [[[a|] c'] p']; simpl in *; [exact Hb | apply Hh, Hb].
Qed.

Lemma keeps_request I {A} (f : Conn -> Res A * Conn) :
  (forall c, I c -> I (snd (f c))) -> keeps I (request f).
Proof.
  intros Hf c p H. unfold request. specialize (Hf c H).
  destruct p as [[|k]|]; [exact H | |]; destruct (f c); exact Hf.
Qed.

Lemma keeps_query I {A} (g : Conn -> A) : keeps I (request (fun c => (Ok (g c), c))).
Proof. apply keeps_request. intros c H. exact H. Qed.

Lemma keeps_getAccount I account_id : keeps I (getAccount account_id).
Proof.
  unfold getAccount. apply keeps_try_catch; [|apply keeps_ret].
  apply keeps_bind; [apply keeps_query|]. intros [row|]; apply keeps_ret.
Qed.

Lemma keeps_rollback_and_fail I : gateway_keeps I -> keeps I rollback_and_fail.
Proof.
  intros (Hset & Hcommit & Hroll & Hexec). unfold rollback_and_fail.
  apply keeps_bind; [|intros; apply keeps_ret].
  apply keeps_try_catch; [|apply keeps_ret].
  apply keeps_bind; [exact Hroll | intros; apply Hset].
Qed.

Ltac keeps_seq Hset Hcommit Hexec :=
  repeat first
    [ apply keeps_ret
    | apply Hset
    | exact Hcommit
    | apply Hexec; simpl; solve [auto | lia]
    | apply keeps_bind; [|intros ?] ].

Lemma keeps_deposit I account_id amount :
  gateway_keeps I -> keeps I (deposit account_id amount).
Proof.
  intros HI. pose proof HI as (Hset & Hcommit & Hroll & Hexec). unfold deposit.
  destruct (Qle_bool amount 0) eqn:Hpos; [apply keeps_ret|].
  apply keeps_try_catch; [|apply keeps_rollback_and_fail, HI].
  unfold deposit_try. keeps_seq Hset Hcommit Hexec.
Qed.

Lemma keeps_withdraw I account_id amount :
  gateway_keeps I -> keeps I (withdraw account_id amount).
Proof.
  intros HI. pose proof HI as (Hset & Hcommit & Hroll & Hexec). unfold withdraw.
  destruct (Qle_bool amount 0) eqn:Hpos; [apply keeps_ret|].
  apply keeps_try_catch; [|apply keeps_rollback_and_fail, HI].
  unfold withdraw_try. apply keeps_bind; [apply keeps_getAccount|]. intros a.
  destruct (id a <? 0); [apply keeps_ret|].
  destruct (Qlt_bool (cents (balance a)) amount); [apply keeps_ret|].
  keeps_seq Hset Hcommit Hexec.
Qed.

Lemma keeps_transfer I a b amount :
  gateway_keeps I -> keeps I (transfer a b amount).
Proof.
  intros HI. pose proof HI as (Hset & Hcommit & Hroll & Hexec). unfold transfer.
  destruct (Qle_bool amount 0) eqn:Hpos; [apply keeps_ret|].
  apply keeps_try_catch; [|apply keeps_rollback_and_fail, HI].
  unfold transfer_try. apply keeps_bind; [apply keeps_getAccount|]. intros x.
  apply keeps_bind; [apply keeps_getAccount|]. intros y.
  destruct ((id x <? 0) || (id y <? 0)); [apply keeps_ret|].
  destruct (Qlt_bool (cents (balance x)) amount); [apply keeps_ret|].
  keeps_seq Hset Hcommit Hexec.
Qed.

Lemma keeps_createCustomer I name email phone :
  gateway_keeps I -> keeps I (createCustomer name email phone).
Proof.
  intros (Hset & Hcommit & Hroll & Hexec). unfold createCustomer.
  apply keeps_try_catch; [|apply keeps_ret].
  apply keeps_bind; [apply Hexec; exact Logic.I|]. intros _.
  apply keeps_bind; [apply keeps_query | intros; apply keeps_ret].
Qed.

Lemma keeps_createAccount I cid ty :
  gateway_keeps I -> keeps I (createAccount cid ty).
Proof.
  intros (Hset & Hcommit & Hroll & Hexec). unfold createAccount.
  apply keeps_try_catch; [|apply keeps_ret].
  apply keeps_bind; [apply Hexec; exact Logic.I|]. intros _.
  apply keeps_bind; [apply keeps_query | intros; apply keeps_ret].
Qed.

Lemma snd_call {A} (m : Gw A) p c : snd (call m p c) = snd (fst (m c p)).
Proof. unfold call. destruct (m c p) as [[r c'] p']. reflexivity. Qed.

Lemma run_op_keeps I o p c : gateway_keeps I -> I c -> I (run_op o p c).
Proof.
  intros HI Hc. destruct o; cbn [run_op]; rewrite snd_call.
  - apply keeps_createCustomer; assumption.
  - apply keeps_createAccount; assumption.
  - apply keeps_deposit; assumption.
  - apply keeps_withdraw; assumption.
  - apply keeps_transfer; assumption.
Qed.

Lemma run_ops_keeps I l c : gateway_keeps I -> I c -> I (run_ops l c).
Proof.
  intros HI. revert c. induction l as [|[o p] l IH]; intros c Hc; [exact Hc|].
  cbn [run_ops fold_left fst snd]. apply IH, run_op_keeps; assumption.
Qed.

(** ** The log only grows *)

Lemma log_extends_gateway l : gateway_keeps (log_extends l).
Proof.
  unfold gateway_keeps. split; [|split; [|split]].
  - intros b. apply keeps_request. unfold log_extends; intros c [H1 H2]. destruct b; cbn; split; auto.
    etransitivity; eassumption.
  - apply keeps_request. unfold log_extends; intros c [H1 H2]. cbn. split; [etransitivity; eassumption | reflexivity].
  - apply keeps_request. unfold log_extends; intros c [H1 H2]. cbn. split; [assumption | reflexivity].
  - intros s _. apply keeps_request. unfold log_extends; intros c [H1 H2].
    destruct (apply_stmt s c) as [c'|] eqn:Hs; cbn [snd]; [|split; assumption].
    destruct c as [cm [cu ac tx] au nc na nt li]. cbn in H1, H2.
    destruct s; cbn in Hs;
      repeat match type of Hs with
      | match ?x with _ => _ end = _ => destruct x
      end; try discriminate; injection Hs as <-; destruct au; cbn;
      split; try assumption; try reflexivity;
      try (etransitivity; [eassumption|]); try apply prefix_app_r; try etransitivity;
      eauto; try reflexivity.
Qed.

(** X18: The committed log only grows: whatever calls follow, under
    whatever fault plans, the committed log of a session is a prefix of
    the committed log of every session that continues it; no record is
    changed or removed. *)
Theorem log_append_only (ops more : list (Op * FaultPlan)) :
  transactions (committed (run_ops ops fresh_conn))
    `prefix_of` transactions (committed (run_ops (ops ++ more) fresh_conn)).
Proof.
  assert (Hrun : run_ops (ops ++ more) fresh_conn =
                 run_ops more (run_ops ops fresh_conn))
    by (unfold run_ops; apply fold_left_app).
  rewrite Hrun.
  assert (Hmid : forall l, log_extends l (run_ops ops fresh_conn) ->
                   l `prefix_of` transactions (committed
                     (run_ops more (run_ops ops fresh_conn)))).
  { intros l Hl. apply (run_ops_keeps _ more _ (log_extends_gateway l) Hl). }
  apply Hmid. split; [reflexivity|].
  apply (run_ops_keeps (log_extends []) ops fresh_conn (log_extends_gateway [])).
  split; [apply prefix_nil | reflexivity].
Qed.

(** ** Integrity of the store in every session *)

Lemma tables_wf_mono nc na nt nc' na' nt' t :
  nc <= nc' -> na <= na' -> nt <= nt' ->
  tables_wf nc na nt t -> tables_wf nc' na' nt' t.
Proof.
  intros Hc Ha Ht (H1 & H2 & H3 & H4). repeat split.
  - apply (H1 k row) in H. lia.
  - apply (H1 k row) in H. lia.
  - apply (H2 k row) in H. lia.
  - apply (H2 k row) in H. lia.
  - apply (H2 k row) in H. apply H.
  - apply (H3 r) in H. lia.
  - apply (H3 r) in H. lia.
  - apply (H3 r) in H. lia.
  - apply (H3 r) in H. apply H.
  - exact H4.
Qed.

Lemma tables_wf_customer nc na nt t row :
  0 < nc -> tables_wf nc na nt t ->
  tables_wf (nc + 1) na nt
    (mkTables (<[nc := row]> (customers t)) (accounts t) (transactions t)).
Proof.
  intros Hnc (H1 & H2 & H3 & H4). split; [|split; [|split]]; cbn.
  - intros k r Hk. apply lookup_insert_Some in Hk as [[<- _]|[_ Hk]]; [lia|].
    apply H1 in Hk. lia.
  - intros k r Hk. destruct (H2 k r Hk) as [Hb Hc]. split; [exact Hb|].
    apply lookup_insert_is_Some'. auto.
  - exact H3.
  - exact H4.
Qed.

Lemma tables_wf_account nc na nt t cid ty :
  0 < na -> is_Some (customers t !! cid) -> tables_wf nc na nt t ->
  tables_wf nc (na + 1) nt
    (mkTables (customers t) (<[na := mkAccountRow cid ty 0]> (accounts t))
              (transactions t)).
Proof.
  intros Hna Hcid (H1 & H2 & H3 & H4). split; [|split; [|split]]; cbn.
  - exact H1.
  - intros k r Hk. apply lookup_insert_Some in Hk as [[<- <-]|[_ Hk]].
    + split; [lia | exact Hcid].
    + destruct (H2 k r Hk). split; [lia | assumption].
  - intros r Hr. destruct (H3 r Hr) as (Ha & Hb & Hc).
    split; [exact Ha|]. split; [exact Hb|]. apply lookup_insert_is_Some'. auto.
  - exact H4.
Qed.

Lemma tables_wf_alter nc na nt t d a :
  tables_wf nc na nt t ->
  tables_wf nc na nt
    (mkTables (customers t) (alter (add_balance d) a (accounts t)) (transactions t)).
Proof.
  intros (H1 & H2 & H3 & H4). split; [|split; [|split]]; cbn.
  - exact H1.
  - intros k r Hk. apply lookup_alter_Some in Hk as [[<- (x & Hx & ->)]|[_ Hk]].
    + exact (H2 _ _ Hx).
    + exact (H2 _ _ Hk).
  - intros r Hr. destruct (H3 r Hr) as (Ha & Hb & Hc).
    split; [exact Ha|]. split; [exact Hb|]. apply lookup_alter_is_Some. exact Hc.
  - exact H4.
Qed.

Lemma tables_wf_record nc na nt t a ty amount details :
  0 < nt -> 0 <= amount -> is_Some (accounts t !! a) -> tables_wf nc na nt t ->
  tables_wf nc na (nt + 1)
    (mkTables (customers t) (accounts t)
       (transactions t ++ [mkTransactionRecord nt a ty amount details])).
Proof.
  intros Hnt Hpos Ha (H1 & H2 & H3 & H4). split; [|split; [|split]]; cbn.
  - exact H1.
  - exact H2.
  - intros r Hr. apply elem_of_app in Hr as [Hr|Hr].
    + destruct (H3 r Hr) as (Hi & Hb & Hc). split; [lia|]. split; assumption.
    + apply list_elem_of_singleton in Hr as ->. cbn. split; [lia|]. split; assumption.
  - rewrite fmap_app. apply StronglySorted_app_2.
    + intros x1 x2 Hx1 Hx2. apply list_elem_of_fmap in Hx1 as (r & -> & Hr).
      apply list_elem_of_singleton in Hx2 as ->. cbn.
      destruct (H3 r Hr) as (Hi & _). lia.
    + exact H4.
    + cbn. repeat constructor.
Qed.

Lemma store_wf_apply_stmt s c c' :
  stmt_positive s -> store_wf c -> apply_stmt s c = Some c' -> store_wf c'.
Proof.
  intros Hs ((Hnc & Hna & Hnt) & Hcm & Hwk) Happ.
  destruct c as [cm wk au nc na nt li]. cbn in Hnc, Hna, Hnt, Hcm, Hwk.
  destruct s as [n e ph|cid ty|amt a|amt a|a ty amt d]; cbn in Happ.
  - destruct (customers wk !! nc); [discriminate|]. injection Happ as <-.
    pose proof (tables_wf_customer nc na nt wk (mkCustomerRow n e ph) Hnc Hwk) as Hw'.
    split; [cbn; lia|]. cbn. split; [|exact Hw'].
    destruct au; [exact Hw'|]. eapply tables_wf_mono; [| | |exact Hcm]; lia.
  - destruct (customers wk !! cid) as [crow|] eqn:Hcid; [|discriminate].
    destruct (accounts wk !! na); [discriminate|]. injection Happ as <-.
    assert (Hw' := tables_wf_account nc na nt wk cid ty Hna (mk_is_Some _ _ Hcid) Hwk).
    split; [cbn; lia|]. cbn. split; [|exact Hw'].
    destruct au; [exact Hw'|]. eapply tables_wf_mono; [| | |exact Hcm]; lia.
  - injection Happ as <-. pose proof (tables_wf_alter nc na nt wk amt a Hwk) as Hw'.
    split; [cbn; lia|]. cbn. split; [|exact Hw']. destruct au; assumption.
  - injection Happ as <-. pose proof (tables_wf_alter nc na nt wk (- amt) a Hwk) as Hw'.
    split; [cbn; lia|]. cbn. split; [|exact Hw']. destruct au; assumption.
  - destruct (accounts wk !! a) as [row|] eqn:Ha; [|discriminate]. injection Happ as <-.
    assert (Hamt : 0 <= round_cents amt)
      by (apply round_cents_nonneg, Qlt_le_weak, is_positive_Qlt, Hs).
    assert (Hw' := tables_wf_record nc na nt wk a ty (round_cents amt) d Hnt Hamt
                     (mk_is_Some _ _ Ha) Hwk).
    split; [cbn; lia|]. cbn. split; [|exact Hw'].
    destruct au; [exact Hw'|]. eapply tables_wf_mono; [| | |exact Hcm]; lia.
Qed.

Lemma store_wf_gateway : gateway_keeps store_wf.
Proof.
  unfold gateway_keeps. split; [|split; [|split]].
  - intros b. apply keeps_request. intros c (Hn & Hcm & Hwk).
    destruct b; (split; [exact Hn|]; split; assumption).
  - apply keeps_request. intros c (Hn & Hcm & Hwk).
    split; [exact Hn|]; split; assumption.
  - apply keeps_request. intros c (Hn & Hcm & Hwk).
    split; [exact Hn|]; split; assumption.
  - intros s Hs. apply keeps_request. intros c Hc.
    destruct (apply_stmt s c) as [c'|] eqn:Happ; cbn [snd]; [|exact Hc].
    exact (store_wf_apply_stmt s c c' Hs Hc Happ).
Qed.

Lemma fresh_conn_wf : store_wf fresh_conn.
Proof.
  split; [cbn; lia|].
  assert (H : tables_wf 1 1 1 empty_tables).
  { split; [|split; [|split]]; cbn.
    - intros k row Hk. rewrite lookup_empty in Hk. discriminate.
    - intros k row Hk. rewrite lookup_empty in Hk. discriminate.
    - intros r Hr. inversion Hr.
    - constructor. }
  split; exact H.
Qed.

Lemma session_wf ops : store_wf (run_ops ops fresh_conn).
Proof. apply run_ops_keeps; [exact store_wf_gateway | exact fresh_conn_wf]. Qed.

(** X19: In every session from the empty database the keys of the
    accounts are positive, in the committed tables and in the tables as
    the connection sees them; so [getAccount]'s [id = -1] and the engine's
    test [a.id < 0] never mistake an account for a missing one. *)
Theorem session_ids_positive (ops : list (Op * FaultPlan)) :
  positive_ids (committed (run_ops ops fresh_conn)) /\
  positive_ids (working (run_ops ops fresh_conn)).
Proof.
  destruct (session_wf ops) as (_ & (_ & Hc & _) & (_ & Hw & _)).
  split; intros k row Hk; [apply (Hc k row Hk) | apply (Hw k row Hk)].
Qed.

(** X20: Referential integrity holds in every session: every committed
    record of the log is on an account that exists, and every committed
    account belongs to a customer that exists. *)
Theorem session_referential_integrity (ops : list (Op * FaultPlan)) :
  let t := committed (run_ops ops fresh_conn) in
  Forall (fun r => is_Some (accounts t !! tr_account_id r)) (transactions t) /\
  map_Forall (fun _ row => is_Some (customers t !! ar_customer_id row)) (accounts t).
Proof.
  destruct (session_wf ops) as (_ & (_ & Ha & Hr & _) & _). split.
  - apply Forall_forall. intros r Hr'. apply (Hr r Hr').
  - intros k row Hk. apply (Ha k row Hk).
Qed.

Lemma amounts_positive_kept o p c :
  let P := fun t => Forall (fun r => 0 < tr_amount r) (transactions t) in
  whole_cents o ->
  P (committed c) /\ P (working c) ->
  P (committed (run_op o p c)) /\ P (working (run_op o p c)).
Proof.
  intros P Hw [Hcm Hwk].
  destruct o as [n e ph|cid ty|a amt|a amt|a b amt]; cbn [run_op whole_cents] in *.
  - destruct (createCustomer_cases n e ph c p) as (r & c' & -> & Hl).
    apply (lands_keeps P _ _ _ _ Hcm Hwk Hl). intros _. exact Hwk.
  - destruct (createAccount_cases cid ty c p) as (r & c' & -> & Hl).
    apply (lands_keeps P _ _ _ _ Hcm Hwk Hl). intros _. exact Hwk.
  - destruct Hw as [k ->].
    destruct (deposit_cases a (cents k) c p) as (r & c' & -> & Hl).
    apply (lands_keeps P _ _ _ _ Hcm Hwk Hl). intros [Hpos Hex].
    apply is_positive_cents in Hpos. unfold P, deposit_post; cbn [transactions].
    whole. apply Forall_app. split; [exact Hwk | repeat constructor; exact Hpos].
  - destruct Hw as [k ->].
    destruct (withdraw_cases a (cents k) c p) as (r & c' & -> & Hl).
    apply (lands_keeps P _ _ _ _ Hcm Hwk Hl). intros (Hpos & _).
    apply is_positive_cents in Hpos. unfold P, withdraw_post; cbn [transactions].
    whole. apply Forall_app. split; [exact Hwk | repeat constructor; exact Hpos].
  - destruct Hw as [k ->].
    destruct (transfer_cases a b (cents k) c p) as (r & c' & -> & Hl).
    apply (lands_keeps P _ _ _ _ Hcm Hwk Hl). intros (Hpos & _).
    apply is_positive_cents in Hpos. unfold P, transfer_post; cbn [transactions].
    whole. apply Forall_app. split; [exact Hwk | repeat constructor; exact Hpos].
Qed.

(** X21: No record of the log, in any session, has a negative amount: the
    three money operations turn away amounts that are zero or negative
    before anything is written, and the store rounds what passes to the
    nearest hundredth, which may be 0.00.  In a session whose amounts are
    whole numbers of hundredths every record has a positive amount. *)
Theorem session_amounts_not_negative (ops : list (Op * FaultPlan)) :
  Forall (fun r => 0 <= tr_amount r)
         (transactions (committed (run_ops ops fresh_conn))) /\
  (Forall (fun op => whole_cents (fst op)) ops ->
   Forall (fun r => 0 < tr_amount r)
          (transactions (committed (run_ops ops fresh_conn)))).
Proof.
  split.
  - destruct (session_wf ops) as (_ & (_ & _ & Hr & _) & _).
    apply Forall_forall. intros r Hr'. apply (Hr r Hr').
  - enough (H : forall l c,
              Forall (fun op => whole_cents (fst op)) l ->
              (Forall (fun r => 0 < tr_amount r) (transactions (committed c)) /\
               Forall (fun r => 0 < tr_amount r) (transactions (working c))) ->
              Forall (fun r => 0 < tr_amount r) (transactions (committed (run_ops l c)))).
    { intros Hw. apply H; [exact Hw | split; constructor]. }
    induction l as [|[o p] l IH]; intros c Hw Hc; [apply Hc|].
    apply Forall_cons in Hw as [Ho Hw].
    cbn [run_ops fold_left fst snd]. apply IH; [exact Hw|].
    exact (amounts_positive_kept o p c Ho Hc).
Qed.

Lemma session_amounts_not_negative_witness :
  Forall (fun op => whole_cents (fst op)) scenario_ops /\
  Forall (fun r => 0 < tr_amount r)
         (transactions (committed (run_ops scenario_ops fresh_conn))).
Proof.
  split; [exact scenario_whole|].
  exact (proj2 (session_amounts_not_negative scenario_ops) scenario_whole).
Defined.

(** A deposit of a tenth of a hundredth leaves a record of 0.00 in the
    log. *)
Example record_of_nothing :
  (fun r => (tr_type r, tr_amount r)) <$>
    transactions (committed (run_op (OpDeposit 1 (1 # 10)) no_fault scenario_conn)) =
  [(DEPOSIT, 5000); (DEPOSIT, 0)].
Proof. reflexivity. Qed.

Lemma StronglySorted_lt_NoDup (l : list Z) : StronglySorted Z.lt l -> NoDup l.
Proof.
  induction 1 as [|x l Hs IH Hall]; constructor; [|exact IH].
  intros Hin. rewrite Forall_forall in Hall. specialize (Hall x Hin). lia.
Qed.

(** X22: The identifiers of the records increase along the log, in every
    session and whatever was rolled back in between; no two records share
    an identifier. *)
Theorem session_record_ids_increase (ops : list (Op * FaultPlan)) :
  StronglySorted Z.lt (tr_id <$> transactions (committed (run_ops ops fresh_conn))) /\
  NoDup (tr_id <$> transactions (committed (run_ops ops fresh_conn))).
Proof.
  destruct (session_wf ops) as (_ & (_ & _ & _ & Hs) & _).
  split; [exact Hs | apply StronglySorted_lt_NoDup, Hs].
Qed.

(** X23: At any point of any session [createCustomer], with no storage
    fault, succeeds: it returns a positive identifier that no customer
    had, and the connection then sees the new row under it. *)
Theorem createCustomer_in_session (ops : list (Op * FaultPlan))
    (name email phone : string) :
  let c := run_ops ops fresh_conn in
  exists c',
    call (createCustomer name email phone) no_fault c = (Ok (next_customer_id c), c') /\
    0 < next_customer_id c /\
    customers (working c) !! next_customer_id c = None /\
    customers (working c') !! next_customer_id c =
      Some (mkCustomerRow name email phone).
Proof.
  intros c. destruct (session_wf ops) as ((Hnc & _) & _ & (Hcu & _)). fold c in Hnc, Hcu.
  assert (Hfree : customers (working c) !! next_customer_id c = None).
  { destruct (customers (working c) !! next_customer_id c) as [row|] eqn:Hk; [|reflexivity].
    apply Hcu in Hk. lia. }
  clear Hcu. clearbody c. destruct c as [cm [cu ac tx] au nc na nt li].
  cbn [working customers next_customer_id] in *.
  destruct au; gw_all; eexists; (split; [reflexivity|]); (split; [exact Hnc|]);
    (split; [first [exact Hfree | reflexivity]|]); cbn [working customers];
    apply lookup_insert_eq.
Qed.

(** ** The connection between calls *)

Lemma idle_after_deposit a amount p c :
  idle c -> p = no_fault \/ is_Some (accounts (committed c) !! a) ->
  idle (snd (call (deposit a amount) p c)).
Proof.
  intros Hc Hcase. rewrite (idle_inv c Hc).
  destruct c as [[cu ac tx] wk au nc na nt li]. cbn [committed accounts] in Hcase.
  destruct (ac !! a) as [row|] eqn:Hrow.
  - destruct p as [[|[|[|[|[|k]]]]]|]; gw_all; apply idle_mk.
  - destruct Hcase as [->|[x Hx]]; [|discriminate]. gw_all; apply idle_mk.
Qed.

Lemma idle_after_withdraw a amount p c :
  idle c -> idle (snd (call (withdraw a amount) p c)).
Proof.
  intros Hc. rewrite (idle_inv c Hc).
  destruct c as [[cu ac tx] wk au nc na nt li].
  destruct (ac !! a) as [row|] eqn:Hrow;
    destruct p as [[|[|[|[|[|[|k]]]]]]|]; gw_all; apply idle_mk.
Qed.

Lemma idle_after_transfer a b amount p c :
  idle c -> idle (snd (call (transfer a b amount) p c)).
Proof.
  intros Hc. rewrite (idle_inv c Hc).
  destruct c as [[cu ac tx] wk au nc na nt li].
  destruct (decide (a = b)) as [->|Hne];
  destruct (ac !! b) as [row2|] eqn:Hrow2;
  try destruct (ac !! a) as [row|] eqn:Hrow;
  destruct p as [[|[|[|[|[|[|[|[|[|k]]]]]]]]]|]; gw_all; apply idle_mk.
Qed.

Lemma idle_after_create name email phone cid ty p c :
  idle c ->
  idle (snd (call (createCustomer name email phone) p c)) /\
  idle (snd (call (createAccount cid ty) p c)).
Proof.
  intros Hc. rewrite (idle_inv c Hc).
  destruct c as [[cu ac tx] wk au nc na nt li].
  destruct (cu !! nc) as [x|] eqn:Hx; destruct (cu !! cid) as [y|] eqn:Hy;
  destruct (ac !! na) as [z|] eqn:Hz;
  destruct p as [[|[|k]]|]; split; gw_all; apply idle_mk.
Qed.

(** X24: A call leaves an idle connection idle (autocommit on, nothing
    pending), under every fault plan, but for one case: a [deposit] on a
    missing account whose fault plan is not empty. *)
Theorem run_op_idle (o : Op) (p : FaultPlan) (c : Conn) :
  idle c ->
  (forall a amount, o = OpDeposit a amount ->
     p = no_fault \/ is_Some (accounts (committed c) !! a)) ->
  idle (run_op o p c).
Proof.
  intros Hc Hdep. destruct o as [n e ph|cid ty|a amt|a amt|a b amt]; cbn [run_op].
  - apply (idle_after_create n e ph 0 EmptyString p c Hc).
  - apply (idle_after_create EmptyString EmptyString EmptyString cid ty p c Hc).
  - apply idle_after_deposit; [exact Hc | apply (Hdep a amt eq_refl)].
  - apply idle_after_withdraw, Hc.
  - apply idle_after_transfer, Hc.
Qed.

Lemma run_op_idle_witness :
  (idle scenario_conn /\
   (forall a amount, OpDeposit 1 (cents 2500) = OpDeposit a amount ->
      fault_at 2 = no_fault \/ is_Some (accounts (committed scenario_conn) !! a))) /\
  idle (run_op (OpDeposit 1 (cents 2500)) (fault_at 2) scenario_conn).
Proof.
  assert (H : forall a amount, OpDeposit 1 (cents 2500) = OpDeposit a amount ->
                fault_at 2 = no_fault \/
                is_Some (accounts (committed scenario_conn) !! a)).
  { intros a amount Heq. injection Heq as <- <-. right. exists savings_row. reflexivity. }
  split; [split; [exact scenario_idle | exact H]|].
  exact (run_op_idle (OpDeposit 1 (cents 2500)) (fault_at 2) scenario_conn scenario_idle H).
Defined.

(** X25: In a session without storage faults the connection is idle after
    every call. *)
Theorem fault_free_session_idle (ops : list (Op * FaultPlan)) :
  Forall (fun op => snd op = no_fault) ops ->
  idle (run_ops ops fresh_conn).
Proof.
  assert (H : forall l c, Forall (fun op => snd op = no_fault) l -> idle c ->
                idle (run_ops l c)).
  { induction l as [|[o p] l IH]; intros c Hall Hc; [exact Hc|].
    apply Forall_cons in Hall as [Hp Hall]. cbn [snd] in Hp. subst p.
    cbn [run_ops fold_left fst snd]. apply IH; [exact Hall|].
    destruct o as [n e ph|cid ty|a amt|a amt|a b amt]; cbn [run_op].
    - apply (idle_after_create n e ph 0 EmptyString no_fault c Hc).
    - apply (idle_after_create EmptyString EmptyString EmptyString cid ty no_fault c Hc).
    - apply idle_after_deposit; [exact Hc | left; reflexivity].
    - apply idle_after_withdraw, Hc.
    - apply idle_after_transfer, Hc. }
  intros Hall. apply H; [exact Hall | split; reflexivity].
Qed.

Lemma fault_free_session_idle_witness :
  Forall (fun op : Op * FaultPlan => snd op = no_fault)
         [(OpCreateCustomer "Alice" "a@x.com" "555-0100", no_fault);
          (OpCreateAccount 1 "SAVINGS", no_fault);
          (OpDeposit 1 (cents 5000), no_fault)] /\
  idle (run_ops [(OpCreateCustomer "Alice" "a@x.com" "555-0100", no_fault);
                 (OpCreateAccount 1 "SAVINGS", no_fault);
                 (OpDeposit 1 (cents 5000), no_fault)] fresh_conn).
Proof.
  assert (H : Forall (fun op : Op * FaultPlan => snd op = no_fault)
                [(OpCreateCustomer "Alice" "a@x.com" "555-0100", no_fault);
                 (OpCreateAccount 1 "SAVINGS", no_fault);
                 (OpDeposit 1 (cents 5000), no_fault)])
    by (repeat constructor).
  split; [exact H|].
  exact (fault_free_session_idle _ H).
Defined.

(** X26: The one case left out: a [deposit] on a missing account whose
    rollback fails.  The record is refused by the foreign key, the handler
    swallows the failure of [rollback()] and skips [setAutoCommit(true)]:
    the call reports failure, the tables are as before, and autocommit
    stays off, so that the row of a following, successful
    [createCustomer] is not committed. *)
Theorem deposit_missing_leaves_autocommit_off (c : Conn) (a : Z) (amount : Q)
    (name email phone : string) :
  idle c -> (0 < amount)%Q ->
  accounts (committed c) !! a = None ->
  customers (committed c) !! next_customer_id c = None ->
  exists c1 c2,
    call (deposit a amount) (fault_at 3) c = (Ok false, c1) /\
    autocommit c1 = false /\
    committed c1 = committed c /\ working c1 = committed c /\
    call (createCustomer name email phone) no_fault c1 = (Ok (next_customer_id c), c2) /\
    committed c2 = committed c /\
    customers (working c2) !! next_customer_id c = Some (mkCustomerRow name email phone).
Proof.
  intros Hc Hpos Hrow Hfree. apply is_positive_Qlt in Hpos. rewrite (idle_inv c Hc).
  destruct c as [[cu ac tx] wk au nc na nt li]. cbn in Hrow, Hfree.
  gw_all. do 2 eexists. split; [reflexivity|]. cbn [autocommit committed working].
  split; [reflexivity|]. split; [reflexivity|]. split; [reflexivity|].
  gw_all. split; [reflexivity|]. cbn [committed working customers].
  split; [reflexivity | apply lookup_insert_eq].
Qed.

Lemma deposit_missing_leaves_autocommit_off_witness :
  (idle scenario_conn /\ (0 < cents 2500)%Q /\
   accounts (committed scenario_conn) !! 7 = None /\
   customers (committed scenario_conn) !! next_customer_id scenario_conn = None) /\
  exists c1 c2,
    call (deposit 7 (cents 2500)) (fault_at 3) scenario_conn = (Ok false, c1) /\
    autocommit c1 = false /\
    committed c1 = committed scenario_conn /\ working c1 = committed scenario_conn /\
    call (createCustomer "Bob" "b@x.com" "555-0101") no_fault c1 =
      (Ok (next_customer_id scenario_conn), c2) /\
    committed c2 = committed scenario_conn /\
    customers (working c2) !! next_customer_id scenario_conn =
      Some (mkCustomerRow "Bob" "b@x.com" "555-0101").
Proof.
  assert (H : (0 < cents 2500)%Q) by reflexivity.
  split.
  - split; [exact scenario_idle|]. split; [exact H|]. split; reflexivity.
  - exact (deposit_missing_leaves_autocommit_off scenario_conn 7 (cents 2500)
             "Bob" "b@x.com" "555-0101" scenario_idle H eq_refl eq_refl).
Defined.

(** ** Two clients: any account, any amount *)

Ltac race_run :=
  repeat (cbv beta iota zeta delta
            [run_schedule fold_left system_step client_step withdraw_check
             withdraw_unit fst snd];
          gw_all).

(** X27: The lost check, in general: on any account holding at least the
    amount, a whole number of hundredths, when both clients pass the
    balance check before either runs its unit, both withdrawals succeed
    and the balance drops by twice the amount, below zero whenever the
    account held less than that. *)
Theorem interleaved_withdrawals (srv : Conn) (a amount : Z) (row : AccountRow) :
  idle srv -> 0 <= a -> 0 < amount ->
  accounts (committed srv) !! a = Some row ->
  amount <= ar_balance row ->
  let st := run_schedule a (cents amount) [false; true; false; true] srv in
  fst (fst st) = Returned true /\ snd (fst st) = Returned true /\
  balance_of (committed (snd st)) a = Some (ar_balance row - amount - amount).
Proof.
  intros Hc Ha Hpos Hrow Hle. rewrite (idle_inv srv Hc).
  destruct srv as [[cu ac tx] wk au nc na nt li]. cbn in Hrow.
  race_run. unfold balance_of; cbn [committed accounts].
  rewrite !lookup_alter_eq, Hrow. cbn [fmap option_fmap option_map]. whole.
  cbn [ar_balance].
  split; [reflexivity|]. split; [reflexivity|]. f_equal; lia.
Qed.

Lemma interleaved_withdrawals_witness :
  (idle race_conn /\ 0 <= 1 /\ 0 < 10000 /\
   accounts (committed race_conn) !! 1 = Some (mkAccountRow 1 "SAVINGS" 10000) /\
   10000 <= ar_balance (mkAccountRow 1 "SAVINGS" 10000)) /\
  let st := run_schedule 1 (cents 10000) [false; true; false; true] race_conn in
  fst (fst st) = Returned true /\ snd (fst st) = Returned true /\
  balance_of (committed (snd st)) 1 =
    Some (ar_balance (mkAccountRow 1 "SAVINGS" 10000) - 10000 - 10000).
Proof.
  assert (Hi : idle race_conn) by (split; reflexivity).
  assert (H1 : 0 <= 1) by lia. assert (H2 : 0 < 10000) by lia.
  assert (H3 : 10000 <= ar_balance (mkAccountRow 1 "SAVINGS" 10000)) by (simpl; lia).
  split.
  - split; [exact Hi|]. split; [exact H1|]. split; [exact H2|].
    split; [reflexivity | exact H3].
  - exact (interleaved_withdrawals race_conn 1 10000 (mkAccountRow 1 "SAVINGS" 10000)
             Hi H1 H2 eq_refl H3).
Defined.

(** X28: One after the other the same two withdrawals are safe, whatever
    the amount, whole hundredths or not: the first succeeds, the second
    succeeds exactly when the account still holds the amount, and the
    balance ends at what is left, never below zero.  [remains] is the
    balance the first withdrawal leaves, for a whole number of hundredths
    the balance less the amount. *)
Theorem withdrawals_in_turn_safe (srv : Conn) (a : Z) (amount : Q) (row : AccountRow) :
  idle srv -> 0 <= a -> (0 < amount)%Q ->
  accounts (committed srv) !! a = Some row ->
  (amount <= cents (ar_balance row))%Q ->
  let st := run_schedule a amount [false; false; true; true] srv in
  let remains := round_cents (cents (ar_balance row) + - amount) in
  let second := negb (Qlt_bool (cents remains) amount) in
  fst (fst st) = Returned true /\ snd (fst st) = Returned second /\
  balance_of (committed (snd st)) a =
    Some (if second then round_cents (cents remains + - amount) else remains) /\
  (exists b, balance_of (committed (snd st)) a = Some b /\ 0 <= b) /\
  (forall k, amount = cents k ->
     remains = ar_balance row - k /\
     second = (k <=? ar_balance row - k) /\
     round_cents (cents remains + - amount) = ar_balance row - k - k).
Proof.
  intros Hc Ha Hpos Hrow Hle st remains second. subst st remains second.
  apply is_positive_Qlt in Hpos. apply covers_Qle in Hle.
  pose proof (round_debit_nonneg _ _ Hle) as Hrem.
  assert (Hwhole : forall k, amount = cents k ->
            round_cents (cents (ar_balance row) + - amount) = ar_balance row - k /\
            negb (Qlt_bool (cents (round_cents (cents (ar_balance row) + - amount)))
                    amount) = (k <=? ar_balance row - k) /\
            round_cents (cents (round_cents (cents (ar_balance row) + - amount))
                         + - amount) = ar_balance row - k - k).
  { intros k ->. rewrite !round_cents_minus, Qlt_bool_cents.
    rewrite Z.ltb_antisym, negb_involutive.
    replace (ar_balance row + - k) with (ar_balance row - k) by lia.
    split; [reflexivity|]. split; [reflexivity | lia]. }
  rewrite (idle_inv srv Hc).
  destruct srv as [[cu ac tx] wk au nc na nt li]. cbn in Hrow.
  race_run; cbn [add_balance ar_balance] in *; try congruence;
    unfold balance_of; cbn [committed accounts negb];
    rewrite ?lookup_alter_eq, Hrow;
    cbn [fmap option_fmap option_map add_balance ar_balance];
    (split; [reflexivity|]); (split; [reflexivity|]);
    (split; [reflexivity|]);
    (split; [eexists; (split; [reflexivity|]);
             first [exact Hrem | apply round_debit_nonneg; assumption]
            | first [exact Hwhole
                    | intros k Hk; destruct (Hwhole k Hk) as (? & ? & ?); auto]]).
Qed.

Lemma withdrawals_in_turn_safe_witness :
  (idle race_conn /\ 0 <= 1 /\ (0 < cents 10000)%Q /\
   accounts (committed race_conn) !! 1 = Some (mkAccountRow 1 "SAVINGS" 10000) /\
   (cents 10000 <= cents (ar_balance (mkAccountRow 1 "SAVINGS" 10000)))%Q) /\
  let st := run_schedule 1 (cents 10000) [false; false; true; true] race_conn in
  fst (fst st) = Returned true /\ snd (fst st) = Returned false /\
  balance_of (committed (snd st)) 1 = Some 0.
Proof.
  assert (Hi : idle race_conn) by (split; reflexivity).
  assert (H1 : 0 <= 1) by lia.
  assert (H2 : (0 < cents 10000)%Q) by reflexivity.
  assert (H3 : (cents 10000 <= cents (ar_balance (mkAccountRow 1 "SAVINGS" 10000)))%Q)
    by discriminate.
  split.
  - split; [exact Hi|]. split; [exact H1|]. split; [exact H2|].
    split; [reflexivity | exact H3].
  - destruct (withdrawals_in_turn_safe race_conn 1 (cents 10000)
                (mkAccountRow 1 "SAVINGS" 10000) Hi H1 H2 eq_refl H3)
      as (Hfirst & Hsecond & Hbal & _).
    split; [exact Hfirst|]. split; [exact Hsecond | exact Hbal].
Defined.

(** ** The console's view of an account *)

(** X29: The console's "View Account" (choice 8 of [main]), on tables
    whose account keys are positive and with no storage fault: it shows
    "Account not found" exactly when the account does not exist, and
    otherwise the account's own row together with at most ten records,
    all of them records of that account. *)
Theorem menu_view_spec
    (by_created_at : list TransactionRecord -> list TransactionRecord)
    (on_negative_limit : list TransactionRecord -> Res (list TransactionRecord))
    (c : Conn) (aid : Z) :
  (forall l, by_created_at l ≡ₚ l) ->
  positive_ids (working c) ->
  exists shown,
    call (menu_view by_created_at on_negative_limit aid) no_fault c = (Ok shown, c) /\
    match accounts (working c) !! aid with
    | None => shown = None
    | Some row =>
        exists tx,
          shown = Some (mkAccount aid (ar_customer_id row) (ar_account_type row)
                          (ar_balance row), tx) /\
          (length tx <= 10)%nat /\
          forall r, r ∈ tx -> r ∈ transactions (working c) /\ tr_account_id r = aid
    end.
Proof.
  intros Hperm Hids.
  destruct (accounts (working c) !! aid) as [row|] eqn:Hrow.
  - pose proof (Hids aid row Hrow) as Hpos. cbn in Hpos.
    destruct c as [cm [cu ac tx] au nc na nt li]. cbn [working accounts transactions] in *.
    unfold menu_view. gw_more.
    eexists. split; [reflexivity|]. eexists. split; [reflexivity|].
    exact (recent_rows by_created_at tx aid 10 Hperm).
  - destruct c as [cm [cu ac tx] au nc na nt li]. cbn [working accounts] in *.
    unfold menu_view. gw_more. eexists. split; reflexivity.
Qed.

Lemma menu_view_spec_witness :
  ((forall l, newest_first l ≡ₚ l) /\ positive_ids (working scenario_conn)) /\
  exists shown,
    call (menu_view newest_first refuse_negative 1) no_fault scenario_conn = (Ok shown, scenario_conn) /\
    match accounts (working scenario_conn) !! 1 with
    | None => shown = None
    | Some row =>
        exists tx,
          shown = Some (mkAccount 1 (ar_customer_id row) (ar_account_type row)
                          (ar_balance row), tx) /\
          (length tx <= 10)%nat /\
          forall r, r ∈ tx ->
            r ∈ transactions (working scenario_conn) /\ tr_account_id r = 1
    end.
Proof.
  split; [split; [exact newest_first_perm | exact scenario_positive]|].
  exact (menu_view_spec newest_first refuse_negative scenario_conn 1
           newest_first_perm scenario_positive).
Defined.
